(** * tx-json-rpc-server: the transaction store, its status machine,
      the replacement classifier and the gas monitor

    A shallow embedding of package [ethclient] (StoreTransaction,
    CancelTransaction, changeTransactionStatus, MonitorGas, and the
    upstream client: SendRequest, doRequest, sendTransaction, getGasPrice),
    of package [types] (TransactionStatus, Transaction, the JSON-RPC
    envelopes), of package [rpc] (isValidHexRawTx, isValidTxHash,
    handleRequest, proxyToRPCNode, writeJSONRPCError, recoverPanic) and of
    LoadConfig of package [config].

    Conventions.
    - The store [storedTransactions : map[string]types.Transaction] is a
      [gmap string Transaction].  A Go [range] over the map visits every key
      once, in an order chosen by the runtime: every function that embeds a
      [range] loop takes the visiting order as a list of keys, and the
      theorems quantify over every order that enumerates the keys.
    - A Go [error] is its message; [nil] is [None].
    - [*big.Int] values are [Z]; [int64] values are [Z] with the wrap-around
      written out ([wrap64]).  A [float64] is a binary64 number of the
      Standard Library ([spec_float]); the gas price goes from [int64] to
      [float64] in getGasPrice and back in MonitorGas.
    - A nil-pointer dereference or an out-of-range slice is a run-time panic
      and is an outcome of its own.
    - The functions of other packages that the code calls on the network or
      on go-ethereum values (the HTTP client, the JSON codec, the recovery
      of a sender, the decoding of a transaction) are variables of the
      sections that use them; [strconv.ParseInt] and [hex.Decode], whose
      results the code branches on, are embedded.
    - [transactionsMutex] is taken and released inside
      changeTransactionStatus; StoreTransaction and CancelTransaction are
      embedded as they run with the mutex free.  MonitorGas is the one
      function that locks the mutex itself, so its state carries the mutex,
      and a [Lock] on a held mutex is a tick that never ends. *)

From stdpp Require Import base option list gmap strings pretty.
From Stdlib Require Import ZArith Lia SpecFloat.

Open Scope Z_scope.

(** ** Package types *)

(** [type TransactionStatus int] with its five constants. *)
Inductive TransactionStatus : Set :=
  | STORED
  | CANCELED
  | SPEDUP
  | FAILED
  | BROADCASTED.

#[global] Instance TransactionStatus_eq_dec : EqDecision TransactionStatus.
Proof. solve_decision. Defined.

(** [func (s TransactionStatus) String() string] *)
Definition TransactionStatus_String (s : TransactionStatus) : string :=
  match s with
  | STORED => "STORED"
  | CANCELED => "CANCELED"
  | SPEDUP => "SPEDUP"
  | FAILED => "FAILED"
  | BROADCASTED => "BROADCASTED"
  end.

(** [common.Address] is a 20-byte array, compared with [==]; here the
    160-bit number it spells. *)
Abbreviation Address := Z (only parsing).

(** The embedded go-ethereum transaction, as the values its accessors
    return: [Hash().String()], [ChainId()], [Nonce()], [To()] (a pointer,
    nil for a contract creation), [Value()], [GasFeeCap()], [GasTipCap()]
    and [Data()]. *)
Record EthTransaction : Set := mkEthTransaction {
  Hash : string;
  ChainId : Z;
  Nonce : Z;
  To : option Address;
  Value : Z;
  GasFeeCap : Z;
  GasTipCap : Z;
  Data : list Z
}.

(** [type Transaction struct { types.Transaction; Status; RawHex }] *)
Record Transaction : Set := mkTransaction {
  Eth : EthTransaction;
  Status : TransactionStatus;
  RawHex : string
}.

(** [trx.Status = s] on a copy of the struct. *)
Definition with_Status (s : TransactionStatus) (t : Transaction) : Transaction :=
  {| Eth := Eth t; Status := s; RawHex := RawHex t |}.

(** ** 64-bit integers *)

(** Two's complement wrap-around of a signed 64-bit integer. *)
Definition wrap64 (z : Z) : Z := (z + 2 ^ 63) mod 2 ^ 64 - 2 ^ 63.

(** [big.Int.Int64]: the low 64 bits of the magnitude, as an [int64],
    negated when the number is negative. *)
Definition Int64 (x : Z) : Z :=
  let v := wrap64 (Z.abs x mod 2 ^ 64) in
  if x <? 0 then wrap64 (- v) else v.

(** [int64 + int64] *)
Definition add64 (a b : Z) : Z := wrap64 (a + b).

(** [tx.GasFeeCap().Int64() + tx.GasTipCap().Int64()] *)
Definition gasCapOf (t : EthTransaction) : Z :=
  add64 (Int64 (GasFeeCap t)) (Int64 (GasTipCap t)).

(** ** float64 *)

(** A [float64] is a binary64 number of IEEE 754: 53 bits of precision,
    exponents up to 1024. *)
Definition float64 : Set := spec_float.

(** The conversion [float64(x)] of an [int64]: the nearest binary64 number,
    ties to even.  It is exact up to 2^53 in magnitude and rounds above. *)
Definition float64_of_int64 (x : Z) : float64 := binary_normalize 53 1024 x 0 false.

(** The conversion [int64(f)] of a [float64]: the fraction is dropped
    (truncation towards zero).  When the result does not fit, and for an
    infinity or a NaN, the Go specification leaves the value to the
    implementation; the amd64 compiler gives the smallest [int64], which
    is the value taken here. *)
Definition int64_of_float64 (f : float64) : Z :=
  match f with
  | S754_zero _ => 0
  | S754_finite s m e =>
      let magnitude := if 0 <=? e then Z.pos m * 2 ^ e else Z.pos m / 2 ^ (- e) in
      let v := if s then - magnitude else magnitude in
      if (- 2 ^ 63 <=? v) && (v <? 2 ^ 63) then v else - 2 ^ 63
  | S754_infinity _ | S754_nan => - 2 ^ 63
  end.

(** ** Package ethclient: the status machine *)

(** [allowedTransitions], the map from a status to the statuses that may
    follow it. *)
Definition allowedTransitions (s : TransactionStatus) : list TransactionStatus :=
  match s with
  | STORED => [CANCELED; SPEDUP; FAILED; BROADCASTED]
  | CANCELED => [SPEDUP]
  | SPEDUP => []
  | FAILED => []
  | BROADCASTED => []
  end.

(** The loop of changeTransactionStatus over [allowedTransitions[trx.Status]]:
    the first equal entry writes the record back and returns nil; [None]
    here means that the loop ran to its end. *)
Fixpoint changeTransactionStatus_scan (hash : string) (trx : Transaction)
    (newStatus : TransactionStatus) (allowed : list TransactionStatus)
    (store : gmap string Transaction) : option (gmap string Transaction) :=
  match allowed with
  | [] => None
  | allowedStatus :: rest =>
      if decide (newStatus = allowedStatus)
      then Some (<[hash := with_Status newStatus trx]> store)
      else changeTransactionStatus_scan hash trx newStatus rest store
  end.

Definition errNotFound : string := "transaction not found".

(** [fmt.Errorf("invalid status transition from %s to %s for transaction: %s", ...)] *)
Definition errInvalidTransition (from to : TransactionStatus) (hash : string) : string :=
  "invalid status transition from " +:+ TransactionStatus_String from
  +:+ " to " +:+ TransactionStatus_String to
  +:+ " for transaction: " +:+ hash.

(** [func changeTransactionStatus(hash, newStatus) error], a method of EthClient.
    The function takes [transactionsMutex] on entry and releases it on every
    exit (a deferred Unlock); this is its body, run with the mutex free.
    The result is the returned error and the store after the call. *)
Definition changeTransactionStatus (hash : string) (newStatus : TransactionStatus)
    (store : gmap string Transaction) : option string * gmap string Transaction :=
  match store !! hash with
  | None => (Some errNotFound, store)
  | Some trx =>
      match changeTransactionStatus_scan hash trx newStatus
              (allowedTransitions (Status trx)) store with
      | Some store' => (None, store')
      | None => (Some (errInvalidTransition (Status trx) newStatus hash), store)
      end
  end.

(** [func CancelTransaction(hash string) error], a method of EthClient. *)
Definition CancelTransaction (hash : string) (store : gmap string Transaction)
    : option string * gmap string Transaction :=
  changeTransactionStatus hash CANCELED store.

(** The adjacency table of the status machine, as a list of pairs. *)
Definition transitionTable : list (TransactionStatus * TransactionStatus) :=
  [(STORED, CANCELED); (STORED, SPEDUP); (STORED, FAILED);
   (STORED, BROADCASTED); (CANCELED, SPEDUP)].

Definition inTable (from to : TransactionStatus) : bool :=
  bool_decide ((from, to) ∈ transitionTable).

(** ** Package ethclient: StoreTransaction *)

(** How a call ends: it returns (with its error and the store it leaves), or
    it panics (with the store at that moment). *)
Inductive Outcome : Type :=
  | Returned (err : option string) (store : gmap string Transaction)
  | Panicked (store : gmap string Transaction).

Definition storeOf (o : Outcome) : gmap string Transaction :=
  match o with
  | Returned _ store => store
  | Panicked store => store
  end.

(** How one pass through the body of the [range] loop ends. *)
Inductive LoopStep : Type :=
  | Continue (isCancelingTx : bool) (store : gmap string Transaction)
  | Break (isCancelingTx : bool) (store : gmap string Transaction)
  | Return (err : option string) (store : gmap string Transaction)
  | Panic (store : gmap string Transaction).

(** [fmt.Errorf("already %s", oldTx.Status.String())] *)
Definition errAlready (s : TransactionStatus) : string :=
  "already " +:+ TransactionStatus_String s.

(** The conjuncts of the cancel test that follow the dereference of
    [tx.To()]: [newFromAddress == *tx.To() && tx.Value().Int64() == 0 &&
    gasCap > oldGasCap && len(tx.Data()) == 0]. *)
Definition cancelCondition (newFromAddress to : Address) (tx oldTx : EthTransaction) : bool :=
  bool_decide (newFromAddress = to)
  && bool_decide (Int64 (Value tx) = 0)
  && bool_decide (gasCapOf tx > gasCapOf oldTx)
  && bool_decide (length (Data tx) = 0%nat).

(** The speed-up test after both dereferences: [*tx.To() == *oldTx.To() &&
    tx.Value().Int64() == oldTx.Value().Int64() && gasCap > oldGasCap &&
    bytes.Equal(tx.Data(), oldTx.Data())]. *)
Definition speedUpCondition (to oldTo : Address) (tx oldTx : EthTransaction) : bool :=
  bool_decide (to = oldTo)
  && bool_decide (Int64 (Value tx) = Int64 (Value oldTx))
  && bool_decide (gasCapOf tx > gasCapOf oldTx)
  && bool_decide (Data tx = Data oldTx).

Section StoreTransaction.

(** [ethTypes.Sender(ethTypes.LatestSignerForChainID(chainID), tx)] of
    go-ethereum: the address recovered from the signature under the
    signer of a chain id, or an error ([None]). *)
Variable Sender : Z → EthTransaction → option Address.

(** The body of the loop [for oldHash, oldTx := range ec.storedTransactions]
    for one entry. *)
Definition StoreTransaction_entry (tx : Transaction) (oldHash : string)
    (oldTx : Transaction) (isCancelingTx : bool)
    (store : gmap string Transaction) : LoopStep :=
  let hash := Hash (Eth tx) in
  if decide (oldHash = hash) then Return (Some (errAlready (Status oldTx))) store
  else if decide (Status oldTx = SPEDUP) then Continue isCancelingTx store
  else
    match Sender (ChainId (Eth tx)) (Eth oldTx) with
    | None => Continue isCancelingTx store
    | Some oldFromAddress =>
        match Sender (ChainId (Eth tx)) (Eth tx) with
        | None => Break isCancelingTx store
        | Some newFromAddress =>
            if bool_decide (oldFromAddress = newFromAddress)
               && bool_decide (Nonce (Eth tx) = Nonce (Eth oldTx))
            then
              match To (Eth tx) with
              | None => Panic store
              | Some to =>
                  if cancelCondition newFromAddress to (Eth tx) (Eth oldTx)
                  then
                    match changeTransactionStatus oldHash CANCELED store with
                    | (Some _, store') => Continue true store'
                    | (None, store') => Return None store'
                    end
                  else
                    match To (Eth oldTx) with
                    | None => Panic store
                    | Some oldTo =>
                        if speedUpCondition to oldTo (Eth tx) (Eth oldTx)
                        then
                          match changeTransactionStatus oldHash SPEDUP store with
                          | (Some err, store') => Return (Some err) store'
                          | (None, store') =>
                              Return None (<[hash := with_Status STORED tx]> store')
                          end
                        else Continue isCancelingTx store
                    end
              end
            else Continue isCancelingTx store
        end
    end.

(** The [range] loop, over the keys in visiting order; the value of a key
    is read from the map when the key is reached.  [Continue] as a result
    says that the loop ran to its end, [Break] that it was left early. *)
Fixpoint StoreTransaction_range (tx : Transaction) (order : list string)
    (isCancelingTx : bool) (store : gmap string Transaction) : LoopStep :=
  match order with
  | [] => Continue isCancelingTx store
  | oldHash :: rest =>
      match store !! oldHash with
      | None => StoreTransaction_range tx rest isCancelingTx store
      | Some oldTx =>
          match StoreTransaction_entry tx oldHash oldTx isCancelingTx store with
          | Continue isCancelingTx' store' =>
              StoreTransaction_range tx rest isCancelingTx' store'
          | step => step
          end
      end
  end.

(** [func StoreTransaction(tx types.Transaction) error], a method of
    EthClient; [order] is the order in which the loop visits the keys. *)
Definition StoreTransaction (tx : Transaction) (order : list string)
    (store : gmap string Transaction) : Outcome :=
  match StoreTransaction_range tx order false store with
  | Return err store' => Returned err store'
  | Panic store' => Panicked store'
  | Continue isCancelingTx store' | Break isCancelingTx store' =>
      if isCancelingTx then Returned None store'
      else Returned None (<[Hash (Eth tx) := with_Status STORED tx]> store')
  end.

End StoreTransaction.

(** An order in which a [range] loop can visit the keys of a store: every
    key once. *)
Definition rangeOrder (store : gmap string Transaction) (order : list string) : Prop :=
  order ≡ₚ (map_to_list store).*1.

(** ** Package ethclient: MonitorGas *)

(** The monitor as one thread sees it: the store, whether
    [transactionsMutex] is held, and the keys of the entries for which
    [sendTransaction] has been called, latest first. *)
Record MonitorState : Type := mkMonitorState {
  storedTransactions : gmap string Transaction;
  mutexHeld : bool;
  sent : list string
}.

(** A tick runs to its end, or it blocks for ever in [Lock] on a mutex that
    is held. *)
Inductive TickOutcome : Type :=
  | TickDone (st : MonitorState)
  | TickBlocked (st : MonitorState).

Definition stateOf (o : TickOutcome) : MonitorState :=
  match o with
  | TickDone st => st
  | TickBlocked st => st
  end.

Section MonitorGas.

(** [sendTransaction(ctx, hex)] as the upstream node answers it:
    [(rpcError, err)]. *)
Variable sendTransaction : string → bool * option string.

(** The body of [for hash, tx := range ec.storedTransactions] in
    MonitorGas, for one key.  [gasPrice] is the [float64] that getGasPrice
    returned; the comparison is with [int64(gasPrice)]. *)
Definition MonitorGas_entry (gasPrice : float64) (hash : string) (st : MonitorState)
    : TickOutcome :=
  match storedTransactions st !! hash with
  | None => TickDone st
  | Some tx =>
      if decide (Status tx ≠ STORED) then TickDone st
      else if bool_decide (gasCapOf (Eth tx) >= int64_of_float64 gasPrice) then
        if mutexHeld st then TickBlocked st
        else
          (* Lock, then the call to the node *)
          let sent' := hash :: sent st in
          match sendTransaction (RawHex tx) with
          | (isRPCErr, Some _) =>
              if isRPCErr then
                (* Unlock, then changeTransactionStatus(hash, FAILED);
                   its error is logged *)
                TickDone {| storedTransactions :=
                              (changeTransactionStatus hash FAILED
                                 (storedTransactions st)).2;
                            mutexHeld := false;
                            sent := sent' |}
              else
                (* no Unlock on this path *)
                TickDone {| storedTransactions := storedTransactions st;
                            mutexHeld := true;
                            sent := sent' |}
          | (_, None) =>
              (* Unlock, then changeTransactionStatus(hash, BROADCASTED) *)
              TickDone {| storedTransactions :=
                            (changeTransactionStatus hash BROADCASTED
                               (storedTransactions st)).2;
                          mutexHeld := false;
                          sent := sent' |}
          end
      else TickDone st
  end.

(** The [range] loop of one tick, over the keys in visiting order. *)
Fixpoint MonitorGas_range (gasPrice : float64) (order : list string) (st : MonitorState)
    : TickOutcome :=
  match order with
  | [] => TickDone st
  | hash :: rest =>
      match MonitorGas_entry gasPrice hash st with
      | TickDone st' => MonitorGas_range gasPrice rest st'
      | TickBlocked st' => TickBlocked st'
      end
  end.

(** One [case <-ticker.C] of MonitorGas: [fetched] is what getGasPrice
    returned, [None] for an error (logged, and the tick is over). *)
Definition MonitorGas_tick (fetched : option float64) (order : list string)
    (st : MonitorState) : TickOutcome :=
  match fetched with
  | None => TickDone st
  | Some gasPrice => MonitorGas_range gasPrice order st
  end.

End MonitorGas.

(** The test of the monitor on a record: [tx.Status == STORED] and the cap
    sum reaches [int64(gasPrice)]. *)
Definition eligible (gasPrice : float64) (tx : Transaction) : bool :=
  bool_decide (Status tx = STORED)
  && bool_decide (gasCapOf (Eth tx) >= int64_of_float64 gasPrice).

(** What getGasPrice hands to a tick when the node has answered with the
    price [gasPrice]. *)
Definition fetchedPrice (gasPrice : Z) : option float64 :=
  Some (float64_of_int64 gasPrice).

(** The status in which a broadcast attempt leaves a STORED record, by the
    answer of [sendTransaction]: BROADCASTED without an error, FAILED on an
    error flagged as a JSON-RPC error, STORED on any other error. *)
Definition statusAfterSend (answer : bool * option string) : TransactionStatus :=
  let (isRPCErr, err) := answer in
  match err with
  | None => BROADCASTED
  | Some _ => if isRPCErr then FAILED else STORED
  end.

(** The monitor at the start of a run: the mutex free, nothing sent. *)
Definition monitorStart (store : gmap string Transaction) : MonitorState :=
  {| storedTransactions := store; mutexHeld := false; sent := [] |}.

(** ** Package rpc: isValidHexRawTx *)

(** A decoded JSON value, as [encoding/json] stores it in an [interface{}]. *)
#[warnings="-register-all"] Inductive JSONValue : Type :=
  | JNull
  | JBool (b : bool)
  | JNumber (n : Z)
  | JString (s : string)
  | JArray (l : list JSONValue)
  | JObject (l : list (string * JSONValue)).

(** How a call of a function returning [error] ends. *)
Inductive ErrorResult : Type :=
  | Nil
  | Error (msg : string)
  | SlicePanic.

(** The slice expression [s[:n]] of a string: the first [n] bytes, and a
    run-time panic when [n] exceeds the length. *)
Definition sliceTo (s : string) (n : nat) : option string :=
  if decide (n ≤ String.length s)%nat then Some (String.substring 0 n s) else None.

(** [func isValidHexRawTx(rawTx interface{}) error] *)
Definition isValidHexRawTx (rawTx : JSONValue) : ErrorResult :=
  match rawTx with
  | JString rawTxStr =>
      match sliceTo rawTxStr 2 with
      | None => SlicePanic
      | Some prefix =>
          if decide (prefix ≠ "0x") then Error "invalid transaction hex" else Nil
      end
  | _ => Error "the param is not a string"
  end.

(** ** Vocabulary of the properties *)

(** The cap sum of a transaction as a number: [gas_fee_cap + gas_tip_cap]. *)
Definition capSum (t : EthTransaction) : Z := GasFeeCap t + GasTipCap t.

(** A number that a signed 64-bit integer holds. *)
Definition fitsInt64 (z : Z) : Prop := - 2 ^ 63 <= z < 2 ^ 63.

(** The two caps of a transaction and their sum fit 64 bits; so do its
    value, its caps and their sum. *)
Definition capsFit (t : EthTransaction) : Prop :=
  fitsInt64 (GasFeeCap t) ∧ fitsInt64 (GasTipCap t) ∧ fitsInt64 (capSum t).




Section Vocabulary.

Variable Sender : Z → EthTransaction → option Address.

(** The test [oldFromAddress == newFromAddress && tx.Nonce() ==
    oldTx.Nonce()] of StoreTransaction, both senders recovered under the
    signer of chain [c]. *)
Definition sharesSenderNonce (c : Z) (tx oldTx : EthTransaction) : bool :=
  match Sender c oldTx, Sender c tx with
  | Some oldFromAddress, Some newFromAddress =>
      bool_decide (oldFromAddress = newFromAddress)
      && bool_decide (Nonce tx = Nonce oldTx)
  | _, _ => false
  end.


(** [tx] has the speed-up pattern against [oldTx]. *)
Definition speedUpMatch (tx oldTx : EthTransaction) : bool :=
  match To tx, To oldTx with
  | Some to, Some oldTo => speedUpCondition to oldTo tx oldTx
  | _, _ => false
  end.



(** The stores that a finite sequence of StoreTransaction calls builds
    from the empty store, each call with a transaction that [admits]
    lets in and with a visiting order of its own. *)
Inductive ingested (admits : gmap string Transaction → Transaction → Prop)
    : gmap string Transaction → Prop :=
  | ingested_empty : ingested admits ∅
  | ingested_call store tx order :
      ingested admits store →
      rangeOrder store order →
      admits store tx →
      ingested admits (storeOf (StoreTransaction Sender tx order store)).

(** Every transaction is let in. *)
Definition anyTransaction (store : gmap string Transaction) (tx : Transaction) : Prop :=
  True.


End Vocabulary.

(** ** Sample transactions

    Chain 5; the signature of 0xbad does not recover, 0xc1 is signed by
    address 8 and every other one by address 7. *)

Definition sampleSender (c : Z) (t : EthTransaction) : option Address :=
  if decide (ChainId t = c) then
    if decide (Hash t = "0xbad") then None
    else if decide (Hash t = "0xc1") then Some 8
    else Some 7
  else None.

Definition sampleTx (hash : string) (nonce : Z) (to : option Address) (value : Z)
    (feeCap tipCap : Z) (data : list Z) : Transaction :=
  {| Eth := {| Hash := hash; ChainId := 5; Nonce := nonce; To := to;
               Value := value; GasFeeCap := feeCap; GasTipCap := tipCap;
               Data := data |};
     Status := STORED;
     RawHex := "0x02" +:+ hash |}.

(** a payment of address 7 to address 9, nonce 3, caps 6 + 4 *)
Definition txA : Transaction := sampleTx "0xa1" 3 (Some 9) 100 6 4 [].
(** the same payment with caps 5 + 5 *)
Definition txA' : Transaction := sampleTx "0xa2" 3 (Some 9) 100 5 5 [].
(** the same payment with caps 2 + 3 *)
Definition txLow : Transaction := sampleTx "0xa3" 3 (Some 9) 100 2 3 [].
(** the same payment with caps 12 + 8: the speed-up of the three above *)
Definition txFast : Transaction := sampleTx "0xa4" 3 (Some 9) 100 12 8 [].
(** a zero-value transfer of address 7 to itself, nonce 3, caps 12 + 8 *)
Definition txCancel : Transaction := sampleTx "0xa5" 3 (Some 7) 0 12 8 [].
(** a contract creation of address 7, nonce 3, caps 12 + 8 *)
Definition txCreate : Transaction := sampleTx "0xa7" 3 None 0 12 8 [1; 2].
(** a payment whose signature does not recover *)
Definition txBad : Transaction := sampleTx "0xbad" 3 (Some 9) 100 12 8 [].
(** a payment of address 8, nonce 0, caps 12 + 8 *)
Definition txOther : Transaction := sampleTx "0xc1" 0 (Some 9) 1 12 8 [].
(** the payment of txA with caps 20 + 10 *)
Definition txHigh : Transaction := sampleTx "0xa9" 3 (Some 9) 100 20 10 [].
(** a payment of address 7, nonce 5, with a fee cap of 2^53 wei *)
Definition txRound : Transaction := sampleTx "0xaa" 5 (Some 9) 1 (2 ^ 53) 0 [].
(** a payment of address 7, nonce 4, with a fee cap of 2^63 wei *)
Definition txHuge : Transaction := sampleTx "0xa8" 4 (Some 9) 1 (2 ^ 63) 0 [].

Definition storeA : gmap string Transaction := {[ "0xa1" := txA ]}.
Definition storeALow : gmap string Transaction := <[ "0xa3" := txLow ]> storeA.
Definition storeAA : gmap string Transaction := <[ "0xa2" := txA' ]> storeA.
Definition storeAHigh : gmap string Transaction := <[ "0xa9" := txHigh ]> storeA.
Definition storeAOther : gmap string Transaction := <[ "0xc1" := txOther ]> storeA.
Definition storeCreate : gmap string Transaction := {[ "0xa7" := txCreate ]}.
Definition storeHuge : gmap string Transaction := {[ "0xa8" := txHuge ]}.
Definition storeRound : gmap string Transaction := {[ "0xaa" := txRound ]}.
(** [storeAA] after the speed-up [txFast] has replaced [txA] *)
Definition storeAAFast : gmap string Transaction :=
  <[ "0xa4" := txFast ]> (<[ "0xa1" := with_Status SPEDUP txA ]> storeAA).

(** An upstream node that cannot be reached for 0xa1 and accepts the rest. *)
Definition sampleSend (hex : string) : bool * option string :=
  if decide (hex = "0x020xa1") then (false, Some "unexpected http status code: 502")
  else (false, None).

(** An upstream node that accepts every transaction. *)
Definition sampleAccept (hex : string) : bool * option string := (false, None).

(** An upstream node that rejects 0xa1 with a JSON-RPC error. *)
Definition sampleSendRPC (hex : string) : bool * option string :=
  if decide (hex = "0x020xa1") then (true, Some "nonce too low")
  else (false, None).

(** Closed equations and comparisons are settled by evaluation. *)
Ltac closed_by_computation :=
  lazymatch goal with
  | |- ∀ _, _ => fail
  | |- ¬ _ => fail
  | |- rangeOrder _ _ => unfold rangeOrder; vm_compute; reflexivity
  | |- _ => vm_compute; first [reflexivity | discriminate]
  end.

(** ** Vocabulary of the further properties *)

(** How far a status is from the end of the status machine: STORED can
    still change twice, CANCELED once, the other three never. *)
Definition statusRank (s : TransactionStatus) : nat :=
  match s with
  | STORED => 2
  | CANCELED => 1
  | SPEDUP | FAILED | BROADCASTED => 0
  end.

(** A finite sequence of changeTransactionStatus calls, each on the store
    that the one before left; the returned errors are dropped. *)
Definition changeTransactionStatus_calls (calls : list (string * TransactionStatus))
    (store : gmap string Transaction) : gmap string Transaction :=
  foldl (λ s call, (changeTransactionStatus call.1 call.2 s).2) store calls.

(** The shape of a zero-value transfer to the own sender without data, the
    part of the cancel test that does not look at the old record. *)
Definition cancelShaped (newFromAddress : Address) (tx : EthTransaction) : bool :=
  bool_decide (To tx = Some newFromAddress)
  && bool_decide (Int64 (Value tx) = 0)
  && bool_decide (length (Data tx) = 0%nat).

(** One [case <-ticker.C] of a run of MonitorGas: what getGasPrice returned,
    the order in which the loop visits the keys, and how the node answers
    sendTransaction during the tick. *)
Record Tick : Type := mkTick {
  tickFetched : option float64;
  tickOrder : list string;
  tickSend : string → bool * option string
}.

(** [func MonitorGas(ctx context.Context)], a method of EthClient: the
    ticks that fire before [ctx.Done()], one after the other.  A tick that
    blocks in [Lock] is the end of the run. *)
Fixpoint MonitorGas (ticks : list Tick) (st : MonitorState) : TickOutcome :=
  match ticks with
  | [] => TickDone st
  | tick :: rest =>
      match MonitorGas_tick (tickSend tick) (tickFetched tick) (tickOrder tick) st with
      | TickDone st' => MonitorGas rest st'
      | TickBlocked st' => TickBlocked st'
      end
  end.

(** What the requests served between two ticks may do to the store without
    making the monitor send a record again: a record that is not STORED
    stays in the store and stays not STORED. *)
Definition settledKept (before after : gmap string Transaction) : Prop :=
  ∀ h r, before !! h = Some r → Status r ≠ STORED →
    ∃ r', after !! h = Some r' ∧ Status r' ≠ STORED.

(** The monitor on the store it shares with the request handlers: each
    tick comes with the store as the tick finds it, which is the store
    that the tick before left after the writes of the requests served in
    between.  The mutex and the log of calls are the monitor's own. *)
Fixpoint MonitorGas_shared (run : list (gmap string Transaction * Tick))
    (st : MonitorState) : TickOutcome :=
  match run with
  | [] => TickDone st
  | (found, tick) :: rest =>
      match MonitorGas_tick (tickSend tick) (tickFetched tick) (tickOrder tick)
              {| storedTransactions := found;
                 mutexHeld := mutexHeld st;
                 sent := sent st |} with
      | TickDone st' => MonitorGas_shared rest st'
      | TickBlocked st' => TickBlocked st'
      end
  end.

(** Along a run, the writes between the ticks keep what is settled. *)
Fixpoint settledKept_run (run : list (gmap string Transaction * Tick))
    (st : MonitorState) : Prop :=
  match run with
  | [] => True
  | (found, tick) :: rest =>
      settledKept (storedTransactions st) found
      ∧ settledKept_run rest
          (stateOf (MonitorGas_tick (tickSend tick) (tickFetched tick) (tickOrder tick)
                      {| storedTransactions := found;
                         mutexHeld := mutexHeld st;
                         sent := sent st |}))
  end.

(** ** Package types: the JSON-RPC envelopes *)

(** [type JSONRPCError struct { Code int; Message string }] *)
Record JSONRPCError : Type := mkJSONRPCError {
  Code : Z;
  Message : string
}.

(** [type JSONRPCRequest struct { Jsonrpc; Method; Params; ID }] *)
Record JSONRPCRequest : Type := mkJSONRPCRequest {
  Request_Jsonrpc : string;
  Request_Method : string;
  Request_Params : list JSONValue;
  Request_ID : JSONValue
}.

(** [type JSONRPCResponse struct { Jsonrpc; ID; Result; Error }]; a nil
    [Result] or [ID] is [JNull], a nil [Error] is [None]. *)
Record JSONRPCResponse : Type := mkJSONRPCResponse {
  Response_Jsonrpc : string;
  Response_ID : JSONValue;
  Response_Result : JSONValue;
  Response_Error : option JSONRPCError
}.

(** ** strconv.ParseInt, base 16, 64 bits *)

(** [lower(c)] of package strconv: [c | ('x' - 'X')]. *)
Definition strconv_lower (c : Z) : Z := Z.lor c 32.

(** The value of a byte as a digit in [ParseUint], before the comparison
    with the base; [None] is the default case of the switch. *)
Definition digitValue (c : Z) : option Z :=
  if (48 <=? c) && (c <=? 57) then Some (c - 48)
  else if (97 <=? strconv_lower c) && (strconv_lower c <=? 122)
       then Some (strconv_lower c - 97 + 10)
       else None.

Inductive NumError : Set :=
  | ErrSyntax
  | ErrRange.

(** The loop of [ParseUint(s, 16, 64)] over the bytes of [s], from the
    number [n] read so far. *)
Fixpoint ParseUint_loop (bytes : list Z) (n : Z) : NumError + Z :=
  match bytes with
  | [] => inr n
  | c :: rest =>
      match digitValue c with
      | None => inl ErrSyntax
      | Some d =>
          if d >=? 16 then inl ErrSyntax
          else if n >=? 2 ^ 60 then inl ErrRange
          else
            let n16 := (n * 16) mod 2 ^ 64 in
            let n1 := (n16 + d) mod 2 ^ 64 in
            if (n1 <? n16) || (n1 >? 2 ^ 64 - 1) then inl ErrRange
            else ParseUint_loop rest n1
      end
  end.

(** The bytes of a string. *)
Fixpoint bytesOf (s : string) : list Z :=
  match s with
  | EmptyString => []
  | String c rest => Z.of_N (Ascii.N_of_ascii c) :: bytesOf rest
  end.

(** [strconv.ParseUint(s, 16, 64)] *)
Definition ParseUint (s : string) : NumError + Z :=
  match bytesOf s with
  | [] => inl ErrSyntax
  | bytes => ParseUint_loop bytes 0
  end.

(** [strconv.ParseInt(s, 16, 64)] *)
Definition ParseInt (s : string) : NumError + Z :=
  match s with
  | EmptyString => inl ErrSyntax
  | String c rest =>
      let first := Z.of_N (Ascii.N_of_ascii c) in
      (* '+' is byte 43, '-' is byte 45 *)
      let neg := bool_decide (first = 45) in
      let s' := if bool_decide (first = 43) || neg then rest else s in
      match ParseUint s' with
      | inl ErrSyntax => inl ErrSyntax
      | inl ErrRange =>
          (* un is the largest uint64 *)
          inl ErrRange
      | inr un =>
          if negb neg && (un >=? 2 ^ 63) then inl ErrRange
          else if neg && (un >? 2 ^ 63) then inl ErrRange
          else inr (if neg then wrap64 (- wrap64 un) else wrap64 un)
      end
  end.

(** ** Package ethclient: the upstream client *)

(** What [ec.Client.Do] gives for a POST to [ec.URL]: an error (also the
    error of [http.NewRequestWithContext]), or a response with its status
    code, header and body. *)
Inductive HTTPResult : Type :=
  | HTTPFailure (err : string)
  | HTTPResponse (StatusCode : Z) (Header : list (string * list string)) (Body : string).

(** The request that sendTransaction marshals for a raw transaction. *)
Definition sendRawTransactionRequest (hex : string) : JSONRPCRequest :=
  {| Request_Jsonrpc := "2.0";
     Request_Method := "eth_sendRawTransaction";
     Request_Params := [JString hex];
     Request_ID := JNumber 1 |}.

(** The request that getGasPrice marshals. *)
Definition gasPriceRequest : JSONRPCRequest :=
  {| Request_Jsonrpc := "2.0";
     Request_Method := "eth_gasPrice";
     Request_Params := [];
     Request_ID := JNumber 1 |}.

(** The header that doRequest sends. *)
Definition jsonHeader : list (string * list string) :=
  [("Content-Type", ["application/json"])].

(** How a call that returns the gas price ends: with the [float64] it
    returns, with an error, or with a panic. *)
Inductive GasPriceResult : Type :=
  | GasPrice (gasPrice : float64)
  | GasPriceError (err : string)
  | GasPricePanic.

(** The slice expression [s[n:]] of a string: the bytes from the [n]-th on,
    and a run-time panic when [n] exceeds the length. *)
Definition sliceFrom (s : string) (n : nat) : option string :=
  if decide (n ≤ String.length s)%nat
  then Some (String.substring n (String.length s - n) s)
  else None.

Section UpstreamClient.

(** [http.NewRequestWithContext] and [ec.Client.Do] on a request body and
    header. *)
Variable Do : string → list (string * list string) → HTTPResult.

(** [json.Marshal] of a request, which cannot fail on these values. *)
Variable Marshal : JSONRPCRequest → string.

(** [json.NewDecoder(resp.Body).Decode(&respBody)]: the decoded response,
    or the message of the error. *)
Variable Decode : string → string + JSONRPCResponse.

(** [strconv.Quote], used in the message of a [strconv.NumError]. *)
Variable Quote : string → string.

(** [func SendRequest(ctx, body, headers)], a method of EthClient. *)
Definition SendRequest (body : string) (headers : list (string * list string))
    : HTTPResult :=
  Do body headers.

(** [func doRequest(ctx, reqBody)], a method of EthClient. *)
Definition doRequest (reqBody : string) : string + JSONRPCResponse :=
  match SendRequest reqBody jsonHeader with
  | HTTPFailure err => inl err
  | HTTPResponse StatusCode _ Body =>
      if decide (StatusCode ≠ 200)
      then inl ("unexpected http status code: " +:+ pretty StatusCode)
      else Decode Body
  end.

(** [func sendTransaction(ctx, hex) (rpcError bool, err error)], a method
    of EthClient. *)
Definition sendTransaction (hex : string) : bool * option string :=
  let reqBody := Marshal (sendRawTransactionRequest hex) in
  match doRequest reqBody with
  | inl err => (false, Some err)
  | inr resp =>
      match Response_Error resp with
      | Some e => (true, Some (Message e))
      | None => (false, None)
      end
  end.

(** The message of the [strconv.NumError] of ParseInt. *)
Definition NumError_Error (s : string) (e : NumError) : string :=
  "strconv.ParseInt: parsing " +:+ Quote s +:+ ": "
  +:+ match e with
      | ErrSyntax => "invalid syntax"
      | ErrRange => "value out of range"
      end.

(** [func getGasPrice(ctx) (float64, error)], a method of EthClient.
    [resp.Result.(string)] panics when the result is not a string, and
    [[2:]] when the string is shorter than two bytes. *)
Definition getGasPrice : GasPriceResult :=
  let reqBody := Marshal gasPriceRequest in
  match doRequest reqBody with
  | inl err => GasPriceError err
  | inr resp =>
      match Response_Error resp with
      | Some e => GasPriceError (Message e)
      | None =>
          match Response_Result resp with
          | JString result =>
              match sliceFrom result 2 with
              | None => GasPricePanic
              | Some digits =>
                  match ParseInt digits with
                  | inl e => GasPriceError (NumError_Error digits e)
                  | inr gasPrice => GasPrice (float64_of_int64 gasPrice)
                  end
              end
          | _ => GasPricePanic
          end
      end
  end.

End UpstreamClient.

(** The value of a string of hexadecimal digits, most significant first;
    [None] when a byte is not a hexadecimal digit. *)
Fixpoint hexValue_loop (bytes : list Z) (n : Z) : option Z :=
  match bytes with
  | [] => Some n
  | c :: rest =>
      if (48 <=? c) && (c <=? 57) then hexValue_loop rest (n * 16 + (c - 48))
      else if (97 <=? c) && (c <=? 102) then hexValue_loop rest (n * 16 + (c - 87))
      else if (65 <=? c) && (c <=? 70) then hexValue_loop rest (n * 16 + (c - 55))
      else None
  end.

Definition hexValue (s : string) : option Z := hexValue_loop (bytesOf s) 0.

(** The node answered with status 200 and a body that decodes to [resp]. *)
Definition answered (Do : string → list (string * list string) → HTTPResult)
    (Decode : string → string + JSONRPCResponse)
    (reqBody : string) (resp : JSONRPCResponse) : Prop :=
  ∃ header body, Do reqBody jsonHeader = HTTPResponse 200 header body
                 ∧ Decode body = inr resp.

(** ** A sample upstream node

    The marshalled request is the method name, followed by the raw hex for
    eth_sendRawTransaction.  The node answers eth_gasPrice with the result
    "0x5f5e100", accepts 0x020xa2, rejects 0x020xa1 with a JSON-RPC error
    and answers every other request with status 502. *)
Definition sampleMarshal (req : JSONRPCRequest) : string :=
  match Request_Params req with
  | [JString hex] => Request_Method req +:+ " " +:+ hex
  | _ => Request_Method req
  end.

Definition sampleDo (body : string) (header : list (string * list string)) : HTTPResult :=
  if decide (body = "eth_gasPrice") then HTTPResponse 200 [] "price"
  else if decide (body = "eth_sendRawTransaction 0x020xa2") then HTTPResponse 200 [] "hash"
  else if decide (body = "eth_sendRawTransaction 0x020xa1") then HTTPResponse 200 [] "nonce"
  else HTTPResponse 502 [] "Bad Gateway".

Definition sampleDecode (body : string) : string + JSONRPCResponse :=
  if decide (body = "price")
  then inr {| Response_Jsonrpc := "2.0"; Response_ID := JNumber 1;
              Response_Result := JString "0x5f5e100"; Response_Error := None |}
  else if decide (body = "hash")
  then inr {| Response_Jsonrpc := "2.0"; Response_ID := JNumber 1;
              Response_Result := JString "0xa2"; Response_Error := None |}
  else if decide (body = "nonce")
  then inr {| Response_Jsonrpc := "2.0"; Response_ID := JNumber 1;
              Response_Result := JNull;
              Response_Error := Some {| Code := -32000; Message := "nonce too low" |} |}
  else inl "invalid character 'B' looking for beginning of value".

Definition sampleQuote (s : string) : string :=
  String (Ascii.ascii_of_nat 34) s +:+ String (Ascii.ascii_of_nat 34) EmptyString.

(** ** encoding/hex *)

(** The value of a hexadecimal digit, [None] for any other byte. *)
Definition fromHexChar (c : Z) : option Z :=
  if (48 <=? c) && (c <=? 57) then Some (c - 48)
  else if (97 <=? c) && (c <=? 102) then Some (c - 87)
  else if (65 <=? c) && (c <=? 70) then Some (c - 55)
  else None.

Inductive HexError : Set :=
  | InvalidByteError (b : Z)
  | ErrLength.

(** [hex.Decode]: two digits a byte; the first byte that is not a digit is
    an error, and so is an odd length. *)
Fixpoint hex_Decode (src : list Z) : HexError + list Z :=
  match src with
  | [] => inr []
  | [p] =>
      match fromHexChar p with
      | None => inl (InvalidByteError p)
      | Some _ => inl ErrLength
      end
  | p :: q :: rest =>
      match fromHexChar p with
      | None => inl (InvalidByteError p)
      | Some a =>
          match fromHexChar q with
          | None => inl (InvalidByteError q)
          | Some b =>
              match hex_Decode rest with
              | inl e => inl e
              | inr bytes => inr ((a * 16 + b) :: bytes)
              end
          end
      end
  end.

(** [hex.DecodeString] *)
Definition hex_DecodeString (s : string) : HexError + list Z :=
  hex_Decode (bytesOf s).

(** ** Package rpc: the server *)

(** What a handler has written when it returns: a JSON-RPC response (with
    the content type set), the header and body of the upstream response
    (proxyToRPCNode; the status code stays the default 200), or the plain
    error of [http.Error]. *)
Inductive Reply : Type :=
  | JSONReply (res : JSONRPCResponse)
  | ProxyReply (Header : list (string * list string)) (Body : string)
  | ErrorReply (code : Z) (msg : string).

(** How a handler ends: it returns, having replied, or it panics; either
    way with the store it leaves. *)
Inductive Served : Type :=
  | Replied (reply : Reply) (store : gmap string Transaction)
  | Unrecovered (store : gmap string Transaction).

Definition servedStore (s : Served) : gmap string Transaction :=
  match s with
  | Replied _ store => store
  | Unrecovered store => store
  end.

(** [func writeJSONRPCError(w, id, code, message)] *)
Definition writeJSONRPCError (id : JSONValue) (code : Z) (message : string) : Reply :=
  JSONReply {| Response_Jsonrpc := "2.0";
               Response_ID := id;
               Response_Result := JNull;
               Response_Error := Some {| Code := code; Message := message |} |}.

(** The zero value of [types.JSONRPCRequest]. *)
Definition zeroRequest : JSONRPCRequest :=
  {| Request_Jsonrpc := ""; Request_Method := "";
     Request_Params := []; Request_ID := JNull |}.

Section Server.

(** [fmt]'s [%#U] of a byte, in the message of [hex.InvalidByteError]. *)
Variable formatU : Z → string.

(** [func (e InvalidByteError) Error()] and [hex.ErrLength.Error()] *)
Definition HexError_Error (e : HexError) : string :=
  match e with
  | InvalidByteError b => "encoding/hex: invalid byte: " +:+ formatU b
  | ErrLength => "encoding/hex: odd length hex string"
  end.

(** [func isValidTxHash(param interface{}) error] *)
Definition isValidTxHash (param : JSONValue) : ErrorResult :=
  match param with
  | JString hashStr =>
      if decide (String.length hashStr ≠ 66%nat)
      then Error "invalid transaction hash"
      else
        match sliceTo hashStr 2 with
        | None => SlicePanic
        | Some prefix =>
            if decide (prefix ≠ "0x") then Error "invalid transaction hash"
            else
              match sliceFrom hashStr 2 with
              | None => SlicePanic
              | Some digits =>
                  match hex_DecodeString digits with
                  | inl err =>
                      Error ("invalid transaction hash: " +:+ HexError_Error err)
                  | inr _ => Nil
                  end
              end
        end
  | _ => Error "the param is not a string"
  end.

Variable Sender : Z → EthTransaction → option Address.

(** [http.NewRequestWithContext] and [ec.Client.Do], as for the upstream
    client. *)
Variable Do : string → list (string * list string) → HTTPResult.

(** [json.NewDecoder(...).Decode(&req)]: the request as decoding left it,
    and the error. *)
Variable DecodeRequest : string → JSONRPCRequest * option string.

(** [tx.UnmarshalBinary(bytesTx)] of go-ethereum; [None] is an error. *)
Variable UnmarshalBinary : list Z → option EthTransaction.

(** [func proxyToRPCNode(w, r, body)], a method of EthService. *)
Definition proxyToRPCNode (header : list (string * list string)) (body : string)
    : Reply :=
  match SendRequest Do body header with
  | HTTPFailure err => ErrorReply 500 err
  | HTTPResponse _ respHeader respBody => ProxyReply respHeader respBody
  end.

(** The case ["eth_sendRawTransaction"] of handleRequest. *)
Definition handle_sendRawTransaction (req : JSONRPCRequest) (order : list string)
    (store : gmap string Transaction) : Served :=
  match Request_Params req with
  | param :: _ =>
      match isValidHexRawTx param with
      | SlicePanic => Unrecovered store
      | Error _ => Replied (writeJSONRPCError (Request_ID req) (-32602) "invalid params") store
      | Nil =>
          match param with
          | JString rawHex =>
              match sliceFrom rawHex 2 with
              | None => Unrecovered store
              | Some digits =>
                  match hex_DecodeString digits with
                  | inl _ =>
                      Replied (writeJSONRPCError (Request_ID req) (-32602)
                                 "invalid params") store
                  | inr bytesTx =>
                      match UnmarshalBinary bytesTx with
                      | None =>
                          Replied (writeJSONRPCError (Request_ID req) (-32602)
                                     "invalid params") store
                      | Some eth =>
                          let tx := {| Eth := eth; Status := STORED; RawHex := rawHex |} in
                          match StoreTransaction Sender tx order store with
                          | Panicked store' => Unrecovered store'
                          | Returned (Some err) store' =>
                              Replied (writeJSONRPCError (Request_ID req) (-32000) err)
                                store'
                          | Returned None store' =>
                              Replied
                                (JSONReply {| Response_Jsonrpc := "2.0";
                                              Response_ID := Request_ID req;
                                              Response_Result := JString (Hash eth);
                                              Response_Error := None |})
                                store'
                          end
                      end
                  end
              end
          | _ => Unrecovered store
          end
      end
  | [] =>
      Replied (writeJSONRPCError (Request_ID req) (-32602)
                 "invalid parameters: not enough params to decode") store
  end.

(** The case ["cancel_transaction"] of handleRequest. *)
Definition handle_cancel_transaction (req : JSONRPCRequest)
    (store : gmap string Transaction) : Served :=
  match Request_Params req with
  | param :: _ =>
      match isValidTxHash param with
      | SlicePanic => Unrecovered store
      | Error _ => Replied (writeJSONRPCError (Request_ID req) (-32602) "invalid params") store
      | Nil =>
          match param with
          | JString hash =>
              match CancelTransaction hash store with
              | (Some err, store') =>
                  Replied (writeJSONRPCError (Request_ID req) (-32000) err) store'
              | (None, store') =>
                  Replied
                    (JSONReply {| Response_Jsonrpc := "2.0";
                                  Response_ID := Request_ID req;
                                  Response_Result := JString "Transaction canceled";
                                  Response_Error := None |})
                    store'
              end
          | _ => Unrecovered store
          end
      end
  | [] =>
      Replied (writeJSONRPCError (Request_ID req) (-32602)
                 "invalid parameters: not enough params to decode") store
  end.

(** [func handleRequest(w, r)], a method of EthService, over the
    EthClient of package ethclient.  [body] is what [io.ReadAll(r.Body)]
    returned ([None] for an error), [header] the header of the request,
    [order] the order in which StoreTransaction visits the keys.  The mutex
    of the client is free when the request arrives. *)
Definition handleRequest (body : option string) (header : list (string * list string))
    (order : list string) (store : gmap string Transaction) : Served :=
  match body with
  | None => Replied (writeJSONRPCError (Request_ID zeroRequest) (-32700) "parse error") store
  | Some bodyBytes =>
      match DecodeRequest bodyBytes with
      | (req, Some _) =>
          Replied (writeJSONRPCError (Request_ID req) (-32600) "invalid json request") store
      | (req, None) =>
          if decide (Request_Method req = "eth_sendRawTransaction")
          then handle_sendRawTransaction req order store
          else if decide (Request_Method req = "cancel_transaction")
          then handle_cancel_transaction req store
          else Replied (proxyToRPCNode header bodyBytes) store
      end
  end.

(** [func recoverPanic(next http.HandlerFunc) http.HandlerFunc]: the
    deferred function answers a panic of [next] with a JSON-RPC error. *)
Definition recoverPanic (next : Served) : Served :=
  match next with
  | Unrecovered store => Replied (writeJSONRPCError JNull (-32000) "server error") store
  | replied => replied
  end.

(** The handler that StartServer registers:
    [recoverPanic(service.handleRequest)]. *)
Definition ServeHTTP (body : option string) (header : list (string * list string))
    (order : list string) (store : gmap string Transaction) : Served :=
  recoverPanic (handleRequest body header order store).

End Server.

(** Every byte of a string is a hexadecimal digit. *)
Definition allHex (s : string) : Prop :=
  Forall (λ c, is_Some (fromHexChar c)) (bytesOf s).

(** ** Sample requests

    The body of a request is decoded as its method name followed by one
    string parameter; "{" does not decode. *)
Definition sampleDecodeRequest (body : string) : JSONRPCRequest * option string :=
  if decide (body = "{") then (zeroRequest, Some "unexpected EOF")
  else
    match String.index 0 " " body with
    | Some i =>
        ({| Request_Jsonrpc := "2.0";
            Request_Method := String.substring 0 i body;
            Request_Params :=
              [JString (String.substring (S i) (String.length body - S i) body)];
            Request_ID := JNumber 7 |}, None)
    | None =>
        ({| Request_Jsonrpc := "2.0"; Request_Method := body;
            Request_Params := []; Request_ID := JNumber 7 |}, None)
    end.

(** No byte string unmarshals. *)
Definition sampleUnmarshalBinary (bytesTx : list Z) : option EthTransaction := None.

Definition sampleFormatU (b : Z) : string := pretty b.





(** ** Package config *)

(** [type Config struct { infuraKey; network; url; addr; logLevel }] *)
Record Config : Type := mkConfig {
  infuraKey : string;
  network : string;
  url : string;
  addr : string;
  logLevel : string
}.

(** [os.Getenv]: the value of a variable of the environment, and the empty
    string when it is not set. *)
Definition Getenv (env : gmap string string) (key : string) : string :=
  default "" (env !! key).

(** [func LoadConfig() error], on the environment and the package
    variable [cfg]: the returned error and [cfg] after the call. *)
Definition LoadConfig (env : gmap string string) (cfg : Config) : option string * Config :=
  let network := Getenv env "NETWORK" in
  let infuraKey := Getenv env "INFURA_PROJECT_ID" in
  if bool_decide (network = "") || bool_decide (infuraKey = "")
  then (Some "NETWORK and INFURA_PROJECT_ID must be set", cfg)
  else
    let logLevel := Getenv env "LOG_LEVEL" in
    let logLevel := if decide (logLevel = "") then "INFO" else logLevel in
    let host := Getenv env "HOST" in
    let host := if decide (host = "") then "localhost" else host in
    let port := Getenv env "PORT" in
    let port := if decide (port = "") then "8080" else port in
    let addr := host +:+ ":" +:+ port in
    let baseURL := "https://" +:+ network +:+ ".infura.io/v3/" +:+ infuraKey in
    (None, {| network := network; infuraKey := infuraKey; url := baseURL;
              addr := addr; logLevel := logLevel |}).

(** The environment of the unit test of LoadConfig. *)
Definition sampleEnv : gmap string string :=
  {[ "NETWORK" := "test_network"; "INFURA_PROJECT_ID" := "test_project_id";
     "HOST" := "" ]}.

(** ** Further samples *)

(** txA after a cancel. *)
Definition storeACanceled : gmap string Transaction :=
  {[ "0xa1" := with_Status CANCELED txA ]}.

(** txA after the monitor has broadcast it. *)
Definition storeABroadcast : gmap string Transaction :=
  {[ "0xa1" := with_Status BROADCASTED txA ]}.

(** A tick at gas price 1 over the keys 0xa1 and 0xa2, with the node that
    rejects txA with a JSON-RPC error. *)
Definition sampleTick : Tick :=
  {| tickFetched := fetchedPrice 1; tickOrder := ["0xa1"; "0xa2"]; tickSend := sampleSendRPC |}.

(** A tick at gas price 1 over the keys 0xc1, 0xa1 and 0xa2, with the
    node that accepts everything but txA. *)
Definition sampleTick2 : Tick :=
  {| tickFetched := fetchedPrice 1;
     tickOrder := ["0xc1"; "0xa1"; "0xa2"];
     tickSend := sampleSend |}.

(** The monitor after [sampleTick] on the store that holds txA and txA'. *)
Definition monitorAfterTick : MonitorState :=
  stateOf (MonitorGas_tick (tickSend sampleTick) (tickFetched sampleTick)
             (tickOrder sampleTick) (monitorStart storeAA)).

(** A run on the shared store: [sampleTick]; then txOther is ingested;
    then [sampleTick2]. *)
Definition sampleRun : list (gmap string Transaction * Tick) :=
  [(storeAA, sampleTick);
   (storeOf (StoreTransaction sampleSender txOther ["0xa1"; "0xa2"]
               (storedTransactions monitorAfterTick)),
    sampleTick2)].

(** The monitor after it returned from a transport error for txA. *)
Definition monitorHeld : MonitorState :=
  {| storedTransactions := storeAA; mutexHeld := true; sent := ["0xa1"] |}.

(** * Properties *)

(** ** 64-bit arithmetic *)

Lemma wrap64_small (z : Z) : - 2 ^ 63 <= z < 2 ^ 63 → wrap64 z = z.
Proof.
  intros Hz. unfold wrap64.
  rewrite Z.mod_small by lia. lia.
Qed.

(** A number that fits is its own [Int64()]. *)
Lemma Int64_fits (x : Z) : fitsInt64 x → Int64 x = x.
Proof.
  intros [Hlo Hhi]. unfold Int64.
  destruct (Z.ltb_spec x 0) as [Hneg | Hpos].
  - rewrite Z.abs_neq by lia.
    rewrite Z.mod_small by lia.
    destruct (decide (x = - 2 ^ 63)) as [-> | Hne]; [reflexivity |].
    rewrite (wrap64_small (- x)) by lia.
    rewrite Z.opp_involutive. apply wrap64_small. lia.
  - rewrite Z.abs_eq by lia.
    rewrite Z.mod_small by lia.
    apply wrap64_small. lia.
Qed.

(** Where the caps fit, the cap sum of the code is the sum of the caps. *)
Lemma gasCapOf_fits (t : EthTransaction) : capsFit t → gasCapOf t = capSum t.
Proof.
  intros (Hf & Ht & Hs). unfold gasCapOf, add64.
  rewrite !Int64_fits by done. by apply wrap64_small.
Qed.



(** ** float64

    The number of binary digits of a mantissa, and the mantissa shifted
    to the left. *)
Lemma digits2_pos_bounds (m : positive) :
  2 ^ (Z.pos (digits2_pos m) - 1) <= Z.pos m < 2 ^ Z.pos (digits2_pos m).
Proof.
  induction m as [m IH | m IH |]; cbn [digits2_pos].
  - rewrite Pos2Z.inj_succ.
    replace (Z.succ (Z.pos (digits2_pos m)) - 1) with (Z.succ (Z.pos (digits2_pos m) - 1)) by lia.
    rewrite !Z.pow_succ_r by lia. lia.
  - rewrite Pos2Z.inj_succ.
    replace (Z.succ (Z.pos (digits2_pos m)) - 1) with (Z.succ (Z.pos (digits2_pos m) - 1)) by lia.
    rewrite !Z.pow_succ_r by lia. lia.
  - cbn. lia.
Qed.

Lemma iter_xO_value (m k : positive) : Z.pos (Pos.iter xO m k) = Z.pos m * 2 ^ Z.pos k.
Proof.
  induction k as [| k IH] using Pos.peano_ind.
  - cbn. lia.
  - rewrite Pos.iter_succ, Pos2Z.inj_succ, Z.pow_succ_r by lia.
    rewrite Pos2Z.inj_xO, IH. lia.
Qed.

Lemma iter_xO_digits (m k : positive) :
  digits2_pos (Pos.iter xO m k) = (digits2_pos m + k)%positive.
Proof.
  induction k as [| k IH] using Pos.peano_ind.
  - cbn. lia.
  - rewrite Pos.iter_succ. cbn [digits2_pos]. rewrite IH. lia.
Qed.

(** A number below 2^53 is a binary64 number: rounding keeps it. *)
Lemma binary_round_exact (sx : bool) (m : positive) :
  Z.pos m < 2 ^ 53 →
  ∃ mz ez, binary_round 53 1024 sx m 0 = S754_finite sx mz ez
           ∧ - 52 <= ez <= 0 ∧ Z.pos mz = Z.pos m * 2 ^ (- ez).
Proof.
  intros Hm.
  pose proof (digits2_pos_bounds m) as [Hlo Hhi].
  assert (Z.pos (digits2_pos m) <= 53) as Hd.
  { destruct (Z.le_gt_cases (Z.pos (digits2_pos m)) 53) as [? | Hgt]; [done |].
    assert (2 ^ 53 <= 2 ^ (Z.pos (digits2_pos m) - 1)); [| lia].
    apply Z.pow_le_mono_r; lia. }
  unfold binary_round, shl_align, fexp, emin.
  replace (Z.max (Z.pos (digits2_pos m) + 0 - 53) (3 - 1024 - 53))
    with (Z.pos (digits2_pos m) - 53) by lia.
  destruct (Z.pos (digits2_pos m) - 53 - 0) as [| p | p] eqn:Hshift; [| lia |].
  - (* 53 digits *)
    exists m, 0. split; [| split; [lia | cbn; lia]].
    unfold binary_round_aux, shr_fexp, fexp, emin. cbn [Zdigits2 shr_record_of_loc].
    replace (Z.max (Z.pos (digits2_pos m) + 0 - 53) (3 - 1024 - 53) - 0) with 0 by lia.
    cbn [shr shr_m loc_of_shr_record round_nearest_even Zdigits2].
    replace (Z.max (Z.pos (digits2_pos m) + 0 - 53) (3 - 1024 - 53) - 0) with 0 by lia.
    cbn [shr shr_m]. done.
  - exists (Pos.iter xO m p), (Z.pos (digits2_pos m) - 53).
    assert (Z.pos p = 53 - Z.pos (digits2_pos m)) as Hp by lia.
    split; [| split; [lia |]].
    2:{ rewrite iter_xO_value. f_equal. f_equal. lia. }
    unfold binary_round_aux, shr_fexp, fexp, emin. cbn [Zdigits2 shr_record_of_loc].
    rewrite iter_xO_digits, Pos2Z.inj_add.
    replace (Z.max (Z.pos (digits2_pos m) + Z.pos p + (Z.pos (digits2_pos m) - 53) - 53)
               (3 - 1024 - 53) - (Z.pos (digits2_pos m) - 53)) with 0 by lia.
    cbn [shr shr_m loc_of_shr_record round_nearest_even Zdigits2].
    rewrite iter_xO_digits, Pos2Z.inj_add.
    replace (Z.max (Z.pos (digits2_pos m) + Z.pos p + (Z.pos (digits2_pos m) - 53) - 53)
               (3 - 1024 - 53) - (Z.pos (digits2_pos m) - 53)) with 0 by lia.
    cbn [shr shr_m].
    destruct (Z.leb_spec (Z.pos (digits2_pos m) - 53) (1024 - 53)); [done | lia].
Qed.

Lemma int64_of_float64_finite (sx : bool) (m mz : positive) (ez : Z) :
  Z.pos m < 2 ^ 53 → - 52 <= ez <= 0 → Z.pos mz = Z.pos m * 2 ^ (- ez) →
  int64_of_float64 (S754_finite sx mz ez) = if sx then - Z.pos m else Z.pos m.
Proof.
  intros Hm He Hmz. cbn [int64_of_float64]. rewrite Hmz.
  assert (0 < 2 ^ (- ez)) by (apply Z.pow_pos_nonneg; lia).
  assert ((if 0 <=? ez then Z.pos m * 2 ^ (- ez) * 2 ^ ez
           else Z.pos m * 2 ^ (- ez) / 2 ^ (- ez)) = Z.pos m) as ->.
  { destruct (Z.leb_spec 0 ez).
    - replace ez with 0 by lia. cbn. lia.
    - apply Z.div_mul. lia. }
  destruct sx.
  - destruct (Z.leb_spec (- 2 ^ 63) (- Z.pos m)); [| lia].
    destruct (Z.ltb_spec (- Z.pos m) (2 ^ 63)); [done | lia].
  - destruct (Z.leb_spec (- 2 ^ 63) (Z.pos m)); [| lia].
    destruct (Z.ltb_spec (Z.pos m) (2 ^ 63)); [done | lia].
Qed.

(** Below 2^53 in magnitude, the conversion to [float64] and back gives
    the number itself. *)
Lemma int64_of_float64_of_int64 (x : Z) :
  - 2 ^ 53 < x < 2 ^ 53 → int64_of_float64 (float64_of_int64 x) = x.
Proof.
  intros Hx. unfold float64_of_int64, binary_normalize.
  destruct x as [| m | m]; [reflexivity | |].
  - destruct (binary_round_exact false m) as (mz & ez & Hr & He & Hmz); [lia |].
    rewrite Hr. apply (int64_of_float64_finite false m); [lia | done | done].
  - destruct (binary_round_exact true m) as (mz & ez & Hr & He & Hmz); [lia |].
    rewrite Hr. apply (int64_of_float64_finite true m); [lia | done | done].
Qed.

(** The two conversions on some numbers: exact on the small ones; 2^53 + 1
    is rounded to 2^53 and 2^53 + 3 to 2^53 + 4; 2^63 - 1 is rounded to
    2^63, which no [int64] holds. *)
Example float64_of_int64_samples :
  int64_of_float64 (float64_of_int64 100000000) = 100000000
  ∧ int64_of_float64 (float64_of_int64 (- 5)) = - 5
  ∧ int64_of_float64 (float64_of_int64 (2 ^ 53 + 1)) = 2 ^ 53
  ∧ int64_of_float64 (float64_of_int64 (2 ^ 53 + 3)) = 2 ^ 53 + 4
  ∧ float64_of_int64 (2 ^ 63 - 1) = float64_of_int64 (2 ^ 63)
  ∧ int64_of_float64 (float64_of_int64 (2 ^ 63 - 1)) = - 2 ^ 63.
Proof. repeat split; vm_compute; reflexivity. Qed.

(** ** The status machine *)

Lemma inTable_allowed (from to : TransactionStatus) :
  inTable from to = bool_decide (to ∈ allowedTransitions from).
Proof. destruct from, to; vm_compute; reflexivity. Qed.

Lemma changeTransactionStatus_scan_elem hash trx newStatus allowed store :
  changeTransactionStatus_scan hash trx newStatus allowed store =
    if bool_decide (newStatus ∈ allowed)
    then Some (<[hash := with_Status newStatus trx]> store)
    else None.
Proof.
  induction allowed as [| a rest IH]; cbn [changeTransactionStatus_scan].
  - rewrite bool_decide_eq_false_2; [done | apply not_elem_of_nil].
  - destruct (decide (newStatus = a)) as [-> | Hne].
    + rewrite bool_decide_eq_true_2; [done | apply list_elem_of_here].
    + rewrite IH. apply (f_equal (λ b : bool, if b then _ else _)).
      apply bool_decide_ext. rewrite elem_of_cons.
      split; [by right | by intros [? | ?]].
Qed.

(** changeTransactionStatus, with its loop replaced by membership in
    [allowedTransitions]. *)
Lemma changeTransactionStatus_allowed (store : gmap string Transaction)
    (hash : string) (newStatus : TransactionStatus) :
  changeTransactionStatus hash newStatus store =
    match store !! hash with
    | None => (Some errNotFound, store)
    | Some trx =>
        if bool_decide (newStatus ∈ allowedTransitions (Status trx))
        then (None, <[hash := with_Status newStatus trx]> store)
        else (Some (errInvalidTransition (Status trx) newStatus hash), store)
    end.
Proof.
  unfold changeTransactionStatus.
  destruct (store !! hash) as [trx |]; [| reflexivity].
  rewrite changeTransactionStatus_scan_elem.
  by case_bool_decide.
Qed.

(** C3. changeTransactionStatus fails with "transaction not found" when the
    hash is not a key of the store, fails with "invalid status transition"
    when the pair (current status, new status) is not one of the five pairs
    (STORED, CANCELED), (STORED, SPEDUP), (STORED, FAILED),
    (STORED, BROADCASTED), (CANCELED, SPEDUP), and otherwise (exactly then)
    succeeds and writes the new status into the record; on both failures
    the store is returned as it was.  On success the record under the hash
    has the new status, the transaction and the raw hex it had, and the
    records under the other keys are as they were. *)
Theorem changeTransactionStatus_table (store : gmap string Transaction)
    (hash : string) (newStatus : TransactionStatus) :
  changeTransactionStatus hash newStatus store =
    match store !! hash with
    | None => (Some errNotFound, store)
    | Some trx =>
        if inTable (Status trx) newStatus
        then (None, <[hash := with_Status newStatus trx]> store)
        else (Some (errInvalidTransition (Status trx) newStatus hash), store)
    end
  ∧ ∀ trx, store !! hash = Some trx → inTable (Status trx) newStatus = true →
      (changeTransactionStatus hash newStatus store).1 = None
      ∧ (∃ trx', (changeTransactionStatus hash newStatus store).2 !! hash = Some trx'
                 ∧ Status trx' = newStatus
                 ∧ Eth trx' = Eth trx ∧ RawHex trx' = RawHex trx)
      ∧ ∀ h, h ≠ hash →
          (changeTransactionStatus hash newStatus store).2 !! h = store !! h.
Proof.
  rewrite changeTransactionStatus_allowed. split.
  - destruct (store !! hash) as [trx |]; [| reflexivity].
    by rewrite inTable_allowed.
  - intros trx Hl Ht. rewrite Hl, <- inTable_allowed, Ht. cbn [fst snd].
    split; [done |]. split.
    + exists (with_Status newStatus trx). by rewrite lookup_insert_eq.
    + intros h Hne. by apply lookup_insert_ne.
Qed.

(** A failed status change leaves the store as it was. *)
Lemma changeTransactionStatus_error hash newStatus store err store' :
  changeTransactionStatus hash newStatus store = (Some err, store') → store' = store.
Proof.
  rewrite changeTransactionStatus_allowed.
  destruct (store !! hash) as [trx |]; [case_bool_decide |]; congruence.
Qed.

(** A status change that succeeds found the record and an allowed
    transition. *)
Lemma changeTransactionStatus_ok hash newStatus store store' :
  changeTransactionStatus hash newStatus store = (None, store') →
  ∃ trx, store !! hash = Some trx
         ∧ inTable (Status trx) newStatus = true
         ∧ store' = <[hash := with_Status newStatus trx]> store.
Proof.
  rewrite changeTransactionStatus_allowed.
  destruct (store !! hash) as [trx |] eqn:Hl; [| congruence].
  rewrite <- inTable_allowed.
  destruct (inTable _ _) eqn:Ht; [| congruence].
  intros [= <-]. eauto.
Qed.

Lemma changeTransactionStatus_stored hash newStatus store trx :
  store !! hash = Some trx → Status trx = STORED → newStatus ≠ STORED →
  changeTransactionStatus hash newStatus store =
    (None, <[hash := with_Status newStatus trx]> store).
Proof.
  intros Hl Hs Hne.
  rewrite changeTransactionStatus_allowed, Hl, <- inTable_allowed, Hs.
  by destruct newStatus.
Qed.

(** A status change to CANCELED fails on a record that is not STORED. *)
Lemma changeTransactionStatus_cancel_fails hash store trx :
  store !! hash = Some trx → Status trx ≠ STORED →
  changeTransactionStatus hash CANCELED store =
    (Some (errInvalidTransition (Status trx) CANCELED hash), store).
Proof.
  intros Hl Hs.
  rewrite changeTransactionStatus_allowed, Hl, <- inTable_allowed.
  by destruct (Status trx).
Qed.

Lemma with_Status_same (t : Transaction) : with_Status (Status t) t = t.
Proof. by destruct t. Qed.

(** ** The validator of the raw transaction parameter *)

(** C10. On the empty string (and on a string of one byte) the slice
    [rawTxStr[:2]] of isValidHexRawTx is out of range: the call panics and
    returns neither nil nor an error. *)
Theorem isValidHexRawTx_short_string_panics :
  isValidHexRawTx (JString "") = SlicePanic
  ∧ isValidHexRawTx (JString "0") = SlicePanic.
Proof. split; reflexivity. Qed.

(** Every string shorter than two bytes panics, every longer one and every
    value that is not a string is answered with nil or an error. *)
Lemma isValidHexRawTx_panics_iff (rawTx : JSONValue) :
  isValidHexRawTx rawTx = SlicePanic
  ↔ ∃ s, rawTx = JString s ∧ (String.length s < 2)%nat.
Proof.
  split.
  - destruct rawTx as [| | | s | |]; simpl; try discriminate.
    unfold sliceTo. destruct (decide _) as [Hle | Hgt].
    + destruct (decide _); discriminate.
    + intros _. exists s. split; [done | lia].
  - intros (s & -> & Hlen). simpl. unfold sliceTo.
    destruct (decide _) as [Hle | Hgt]; [lia | done].
Qed.

(** ** StoreTransaction: the loop *)

Section StoreTransactionFacts.

Variable Sender : Z → EthTransaction → option Address.

Implicit Types (tx oldTx : Transaction) (store : gmap string Transaction).

(** The flag that enters a pass of the loop only shows in the flag that
    leaves it. *)
Lemma StoreTransaction_entry_flag tx oldHash oldTx isCancelingTx store :
  StoreTransaction_entry Sender tx oldHash oldTx isCancelingTx store =
    match StoreTransaction_entry Sender tx oldHash oldTx false store with
    | Continue b store' => Continue (isCancelingTx || b) store'
    | Break _ store' => Break isCancelingTx store'
    | step => step
    end.
Proof.
  unfold StoreTransaction_entry.
  repeat case_match; try reflexivity; by rewrite ?orb_true_r, ?orb_false_r.
Qed.

(** A pass that goes on to the next entry, or leaves the loop, or panics,
    has not written to the store. *)
Lemma StoreTransaction_entry_Continue tx oldHash oldTx isCancelingTx store b store' :
  StoreTransaction_entry Sender tx oldHash oldTx isCancelingTx store = Continue b store' →
  store' = store.
Proof.
  unfold StoreTransaction_entry.
  repeat case_match; try congruence; intros [= <- <-]; try reflexivity.
  by eapply changeTransactionStatus_error.
Qed.

Lemma StoreTransaction_entry_Break tx oldHash oldTx isCancelingTx store b store' :
  StoreTransaction_entry Sender tx oldHash oldTx isCancelingTx store = Break b store' →
  store' = store ∧ b = isCancelingTx ∧ Sender (ChainId (Eth tx)) (Eth tx) = None.
Proof.
  unfold StoreTransaction_entry.
  repeat case_match; try congruence. by intros [= <- <-].
Qed.

Lemma StoreTransaction_entry_Panic tx oldHash oldTx isCancelingTx store store' :
  StoreTransaction_entry Sender tx oldHash oldTx isCancelingTx store = Panic store' →
  store' = store.
Proof.
  unfold StoreTransaction_entry.
  repeat case_match; try congruence; by intros [= <-].
Qed.

(** The three ways in which a pass returns from StoreTransaction: with an
    error and the store as it was; after a cancel, with the old record
    CANCELED; after a speed-up, with the old record SPEDUP and the new
    one inserted. *)
Lemma StoreTransaction_entry_Return tx oldHash oldTx isCancelingTx store err store' :
  store !! oldHash = Some oldTx →
  StoreTransaction_entry Sender tx oldHash oldTx isCancelingTx store = Return err store' →
  (is_Some err ∧ store' = store)
  ∨ (err = None ∧ Status oldTx = STORED
     ∧ store' = <[oldHash := with_Status CANCELED oldTx]> store)
  ∨ (err = None ∧ oldHash ≠ Hash (Eth tx)
     ∧ (Status oldTx = STORED ∨ Status oldTx = CANCELED)
     ∧ sharesSenderNonce Sender (ChainId (Eth tx)) (Eth tx) (Eth oldTx) = true
     ∧ speedUpMatch (Eth tx) (Eth oldTx) = true
     ∧ store' = <[Hash (Eth tx) := with_Status STORED tx]>
                  (<[oldHash := with_Status SPEDUP oldTx]> store)).
Proof.
  intros Hl. unfold StoreTransaction_entry.
  destruct (decide (oldHash = _)) as [He | Hne].
  { intros [= <- <-]. left. eauto. }
  destruct (decide (Status oldTx = SPEDUP)) as [| Hsp]; [discriminate |].
  destruct (Sender _ (Eth oldTx)) as [oldFrom |] eqn:Hold; [| discriminate].
  destruct (Sender _ (Eth tx)) as [newFrom |] eqn:Hnew; [| discriminate].
  destruct (_ && _) eqn:Hshare; [| discriminate].
  destruct (To (Eth tx)) as [to |] eqn:Hto; [| discriminate].
  destruct (cancelCondition _ _ _ _) eqn:Hc.
  - destruct (changeTransactionStatus _ _ _) as [[e |] st] eqn:Hch; [discriminate |].
    intros [= <- <-]. right; left.
    apply changeTransactionStatus_ok in Hch as (trx & Hl' & Htab & ->).
    rewrite Hl in Hl'. injection Hl' as <-.
    split; [done |]. split; [| done].
    by destruct (Status oldTx).
  - destruct (To (Eth oldTx)) as [oldTo |] eqn:Hoto; [| discriminate].
    destruct (speedUpCondition _ _ _ _) eqn:Hs; [| discriminate].
    destruct (changeTransactionStatus _ _ _) as [[e |] st] eqn:Hch.
    + intros [= <- <-]. left. split; [eauto |].
      by eapply changeTransactionStatus_error.
    + intros [= <- <-]. right; right.
      apply changeTransactionStatus_ok in Hch as (trx & Hl' & Htab & ->).
      rewrite Hl in Hl'. injection Hl' as <-.
      split; [done |]. split; [done |].
      split; [by destruct (Status oldTx); auto |].
      unfold sharesSenderNonce, speedUpMatch.
      by rewrite Hold, Hnew, Hto, Hoto.
Qed.


(** One step of the loop, at a key that is in the store. *)
Lemma StoreTransaction_range_cons tx oldHash oldTx rest isCancelingTx store :
  store !! oldHash = Some oldTx →
  StoreTransaction_range Sender tx (oldHash :: rest) isCancelingTx store =
    match StoreTransaction_entry Sender tx oldHash oldTx isCancelingTx store with
    | Continue isCancelingTx' store' =>
        StoreTransaction_range Sender tx rest isCancelingTx' store'
    | step => step
    end.
Proof. intros Hl. cbn [StoreTransaction_range]. by rewrite Hl. Qed.

Lemma StoreTransaction_range_skip tx oldHash rest isCancelingTx store :
  store !! oldHash = None →
  StoreTransaction_range Sender tx (oldHash :: rest) isCancelingTx store =
    StoreTransaction_range Sender tx rest isCancelingTx store.
Proof. intros Hl. cbn [StoreTransaction_range]. by rewrite Hl. Qed.

(** The loop that runs to its end has not written to the store, and every
    pass went on to the next entry; when the flag is still down at the
    end, no pass raised it. *)
Lemma StoreTransaction_range_Continue tx order isCancelingTx store b store' :
  StoreTransaction_range Sender tx order isCancelingTx store = Continue b store' →
  store' = store
  ∧ (b = false → isCancelingTx = false)
  ∧ ∀ h r, h ∈ order → store !! h = Some r →
      ∃ b0, StoreTransaction_entry Sender tx h r false store = Continue b0 store
            ∧ (b = false → b0 = false).
Proof.
  revert isCancelingTx.
  induction order as [| k rest IH]; intros isC Hrun.
  - injection Hrun as <- <-. split; [done |]. split; [done |].
    intros h r Hin. by apply elem_of_nil in Hin.
  - destruct (store !! k) as [oldTx |] eqn:Hk.
    + rewrite (StoreTransaction_range_cons _ _ oldTx) in Hrun by done.
      destruct (StoreTransaction_entry _ _ _ _ _ _) as [b1 s1 | | |] eqn:He;
        try discriminate.
      pose proof (StoreTransaction_entry_Continue _ _ _ _ _ _ _ He) as ->.
      destruct (IH _ Hrun) as (-> & Hflag & Hall).
      rewrite StoreTransaction_entry_flag in He.
      destruct (StoreTransaction_entry _ _ _ _ false _) as [b0 s0 | | |] eqn:He0;
        try discriminate.
      pose proof (StoreTransaction_entry_Continue _ _ _ _ _ _ _ He0) as ->.
      injection He as <-.
      split; [done |].
      split; [intros Hb; specialize (Hflag Hb); by destruct isC, b0 |].
      intros h r Hin Hl. apply elem_of_cons in Hin as [-> | Hin]; [| by eauto].
      rewrite Hk in Hl. injection Hl as <-. exists b0. split; [done |].
      intros Hb. specialize (Hflag Hb). by destruct isC, b0.
    + rewrite StoreTransaction_range_skip in Hrun by done.
      destruct (IH _ Hrun) as (-> & Hflag & Hall).
      split; [done |]. split; [done |].
      intros h r Hin Hl. apply elem_of_cons in Hin as [-> | Hin]; [| by eauto].
      congruence.
Qed.

(** The loop is left early only when the sender of the new transaction
    cannot be recovered, and then nothing has been written. *)
Lemma StoreTransaction_range_Break tx order isCancelingTx store b store' :
  StoreTransaction_range Sender tx order isCancelingTx store = Break b store' →
  store' = store ∧ Sender (ChainId (Eth tx)) (Eth tx) = None.
Proof.
  revert isCancelingTx.
  induction order as [| k rest IH]; intros isC Hrun; [discriminate |].
  destruct (store !! k) as [oldTx |] eqn:Hk.
  - rewrite (StoreTransaction_range_cons _ _ oldTx) in Hrun by done.
    destruct (StoreTransaction_entry _ _ _ _ _ _) as [b1 s1 | b1 s1 | |] eqn:He;
      try discriminate.
    + pose proof (StoreTransaction_entry_Continue _ _ _ _ _ _ _ He) as ->.
      by eapply IH.
    + injection Hrun as <- <-.
      by apply StoreTransaction_entry_Break in He as (-> & _ & ?).
  - rewrite StoreTransaction_range_skip in Hrun by done. by eapply IH.
Qed.

Lemma StoreTransaction_range_Panic tx order isCancelingTx store store' :
  StoreTransaction_range Sender tx order isCancelingTx store = Panic store' →
  store' = store.
Proof.
  revert isCancelingTx.
  induction order as [| k rest IH]; intros isC Hrun; [discriminate |].
  destruct (store !! k) as [oldTx |] eqn:Hk.
  - rewrite (StoreTransaction_range_cons _ _ oldTx) in Hrun by done.
    destruct (StoreTransaction_entry _ _ _ _ _ _) as [b1 s1 | | |] eqn:He;
      try discriminate.
    + pose proof (StoreTransaction_entry_Continue _ _ _ _ _ _ _ He) as ->.
      by eapply IH.
    + injection Hrun as <-. by eapply StoreTransaction_entry_Panic.
  - rewrite StoreTransaction_range_skip in Hrun by done. by eapply IH.
Qed.

(** A return from inside the loop is the return of one pass, over a
    record of the store as it was on entry. *)
Lemma StoreTransaction_range_Return tx order isCancelingTx store err store' :
  StoreTransaction_range Sender tx order isCancelingTx store = Return err store' →
  ∃ h r b, h ∈ order ∧ store !! h = Some r
           ∧ StoreTransaction_entry Sender tx h r b store = Return err store'.
Proof.
  revert isCancelingTx.
  induction order as [| k rest IH]; intros isC Hrun; [discriminate |].
  destruct (store !! k) as [oldTx |] eqn:Hk.
  - rewrite (StoreTransaction_range_cons _ _ oldTx) in Hrun by done.
    destruct (StoreTransaction_entry _ _ _ _ _ _) as [b1 s1 | | |] eqn:He;
      try discriminate.
    + pose proof (StoreTransaction_entry_Continue _ _ _ _ _ _ _ He) as ->.
      destruct (IH _ Hrun) as (h & r & b & Hin & Hl & Hr).
      exists h, r, b. split; [by apply list_elem_of_further | done].
    + injection Hrun as <- <-.
      exists k, oldTx, isC. split; [apply list_elem_of_here | done].
  - rewrite StoreTransaction_range_skip in Hrun by done.
    destruct (IH _ Hrun) as (h & r & b & Hin & Hl & Hr).
    exists h, r, b. split; [by apply list_elem_of_further | done].
Qed.

(** Passes that go on without writing can be dropped from the front of
    the visiting order, up to the flag. *)
Lemma StoreTransaction_range_app tx pre rest isCancelingTx store :
  (∀ h r, h ∈ pre → store !! h = Some r →
     ∃ b, StoreTransaction_entry Sender tx h r false store = Continue b store) →
  ∃ b, StoreTransaction_range Sender tx (pre ++ rest) isCancelingTx store =
       StoreTransaction_range Sender tx rest b store.
Proof.
  revert isCancelingTx.
  induction pre as [| k pre IH]; intros isC Hpre; [by exists isC |].
  rewrite <- app_comm_cons.
  assert (∀ h r, h ∈ pre → store !! h = Some r →
     ∃ b, StoreTransaction_entry Sender tx h r false store = Continue b store)
    as Hpre' by (intros h r Hin; apply Hpre; by apply list_elem_of_further).
  destruct (store !! k) as [oldTx |] eqn:Hk.
  - rewrite (StoreTransaction_range_cons _ _ oldTx) by done.
    destruct (Hpre k oldTx) as [b0 Hb0]; [apply list_elem_of_here | done |].
    rewrite StoreTransaction_entry_flag, Hb0. by apply IH.
  - rewrite StoreTransaction_range_skip by done. by apply IH.
Qed.

End StoreTransactionFacts.

(** ** StoreTransaction: the classifier *)

Lemma rangeOrder_elem_of (store : gmap string Transaction) (order : list string) (h : string) :
  rangeOrder store order → h ∈ order ↔ is_Some (store !! h).
Proof.
  unfold rangeOrder. intros ->.
  rewrite list_elem_of_fmap. split.
  - intros ([k r] & -> & Hin). apply elem_of_map_to_list in Hin. by exists r.
  - intros [r Hl]. exists (h, r). split; [done | by apply elem_of_map_to_list].
Qed.

Lemma rangeOrder_NoDup (store : gmap string Transaction) (order : list string) :
  rangeOrder store order → NoDup order.
Proof. unfold rangeOrder. intros ->. apply NoDup_fst_map_to_list. Qed.

Section Classifier.

Variable Sender : Z → EthTransaction → option Address.

Implicit Types (tx old : Transaction) (store : gmap string Transaction).

(** A record that does not share sender and nonce with a new transaction
    whose sender recovers is passed over. *)
Lemma StoreTransaction_entry_stranger tx h r isCancelingTx store :
  h ≠ Hash (Eth tx) →
  is_Some (Sender (ChainId (Eth tx)) (Eth tx)) →
  Status r = SPEDUP ∨ sharesSenderNonce Sender (ChainId (Eth tx)) (Eth tx) (Eth r) = false →
  StoreTransaction_entry Sender tx h r isCancelingTx store = Continue isCancelingTx store.
Proof.
  intros Hne [from Hfrom] Hcase. unfold StoreTransaction_entry.
  rewrite decide_False by done.
  destruct (decide (Status r = SPEDUP)) as [| Hsp]; [done |].
  destruct Hcase as [| Hshare]; [done |].
  unfold sharesSenderNonce in Hshare. rewrite Hfrom in *.
  destruct (Sender _ (Eth r)) as [oldFrom |]; [| done].
  by rewrite Hshare.
Qed.

(** The pass over a live record of the same sender and nonce, once
    [tx.To()] is known not to be nil. *)
Lemma StoreTransaction_entry_sharer tx h r isCancelingTx store to :
  h ≠ Hash (Eth tx) →
  Status r ≠ SPEDUP →
  sharesSenderNonce Sender (ChainId (Eth tx)) (Eth tx) (Eth r) = true →
  To (Eth tx) = Some to →
  ∃ from, Sender (ChainId (Eth tx)) (Eth tx) = Some from ∧
  StoreTransaction_entry Sender tx h r isCancelingTx store =
    if cancelCondition from to (Eth tx) (Eth r) then
      match changeTransactionStatus h CANCELED store with
      | (Some _, store') => Continue true store'
      | (None, store') => Return None store'
      end
    else
      match To (Eth r) with
      | None => Panic store
      | Some oldTo =>
          if speedUpCondition to oldTo (Eth tx) (Eth r) then
            match changeTransactionStatus h SPEDUP store with
            | (Some err, store') => Return (Some err) store'
            | (None, store') =>
                Return None (<[Hash (Eth tx) := with_Status STORED tx]> store')
            end
          else Continue isCancelingTx store
      end.
Proof.
  intros Hne Hsp Hshare Hto. unfold StoreTransaction_entry.
  rewrite decide_False by done. rewrite decide_False by done.
  unfold sharesSenderNonce in Hshare.
  destruct (Sender _ (Eth r)) as [oldFrom |]; [| done].
  destruct (Sender _ (Eth tx)) as [from |]; [| done].
  exists from. split; [done |]. by rewrite Hshare, Hto.
Qed.

(** What the loop does when the sender of the new transaction cannot be
    recovered: nothing, unless it meets the hash of the new transaction. *)
Lemma StoreTransaction_range_unrecoverable tx order store :
  Sender (ChainId (Eth tx)) (Eth tx) = None →
  (∃ b, b = false ∧
     (StoreTransaction_range Sender tx order false store = Continue b store
      ∨ StoreTransaction_range Sender tx order false store = Break b store))
  ∨ ∃ r, store !! Hash (Eth tx) = Some r
         ∧ StoreTransaction_range Sender tx order false store =
             Return (Some (errAlready (Status r))) store.
Proof.
  intros Hnone.
  induction order as [| k rest IH]; [left; exists false; auto |].
  destruct (store !! k) as [oldTx |] eqn:Hk.
  - rewrite (StoreTransaction_range_cons _ _ _ oldTx) by done.
    unfold StoreTransaction_entry. rewrite Hnone.
    destruct (decide (k = _)) as [-> | Hne]; [right; eauto |].
    destruct (decide _); [done |].
    destruct (Sender _ (Eth oldTx)); [| done].
    left. exists false. auto.
  - by rewrite StoreTransaction_range_skip.
Qed.

(** C2, amended. When the sender of a new transaction (its hash is not a
    key of the store) cannot be recovered, StoreTransaction does not fail
    for it: whatever the visiting order, it returns nil, and the store it
    leaves holds under the hash of the transaction a STORED record with
    that transaction and its raw hex; the records under the other keys
    are as they were. *)
Theorem StoreTransaction_sender_unrecoverable tx order store :
  Sender (ChainId (Eth tx)) (Eth tx) = None →
  store !! Hash (Eth tx) = None →
  ∃ store',
    StoreTransaction Sender tx order store = Returned None store'
    ∧ (∃ r, store' !! Hash (Eth tx) = Some r
            ∧ Status r = STORED ∧ Eth r = Eth tx ∧ RawHex r = RawHex tx)
    ∧ ∀ h, h ≠ Hash (Eth tx) → store' !! h = store !! h.
Proof.
  intros Hnone Hnew.
  exists (<[Hash (Eth tx) := with_Status STORED tx]> store). split; [| split].
  - unfold StoreTransaction.
    destruct (StoreTransaction_range_unrecoverable tx order store Hnone)
      as [(b & -> & [-> | ->]) | (r & Hl & _)]; [done | done |].
    by rewrite Hnew in Hl.
  - exists (with_Status STORED tx). by rewrite lookup_insert_eq.
  - intros h Hne. by apply lookup_insert_ne.
Qed.

(** C4, amended. The store holds a STORED record [old]; a new transaction
    (its hash is not a key) of the same sender and nonce is a zero-value
    transfer to its own sender without data, with a cap sum above the one
    of [old]; the caps and cap sums of the transaction and of the live
    records of that sender and nonce fit a signed 64-bit integer; every
    other live record of that sender and nonce with a cap sum below the
    one of the transaction is not STORED, and every other one has a
    recipient.  Then, whatever the visiting order, StoreTransaction
    returns nil, [old] is CANCELED with its transaction and raw hex, and
    nothing else has changed: the transaction is not in the store and the
    size is the same. *)
Theorem StoreTransaction_cancel tx order store oldHash old from :
  rangeOrder store order →
  store !! oldHash = Some old → Status old = STORED →
  store !! Hash (Eth tx) = None →
  Sender (ChainId (Eth tx)) (Eth tx) = Some from →
  Sender (ChainId (Eth tx)) (Eth old) = Some from →
  Nonce (Eth tx) = Nonce (Eth old) →
  To (Eth tx) = Some from → Value (Eth tx) = 0 → Data (Eth tx) = [] →
  capSum (Eth tx) > capSum (Eth old) →
  capsFit (Eth tx) → capsFit (Eth old) →
  (∀ h r, h ≠ oldHash → store !! h = Some r → Status r ≠ SPEDUP →
     sharesSenderNonce Sender (ChainId (Eth tx)) (Eth tx) (Eth r) = true →
     capsFit (Eth r)
     ∧ (capSum (Eth tx) > capSum (Eth r) → Status r ≠ STORED)
     ∧ (capSum (Eth tx) <= capSum (Eth r) → To (Eth r) ≠ None)) →
  ∃ store',
    StoreTransaction Sender tx order store = Returned None store'
    ∧ (∃ old', store' !! oldHash = Some old'
               ∧ Status old' = CANCELED
               ∧ Eth old' = Eth old ∧ RawHex old' = RawHex old)
    ∧ (∀ h, h ≠ oldHash → store' !! h = store !! h)
    ∧ store' !! Hash (Eth tx) = None
    ∧ size store' = size store.
Proof.
  intros Hord Hold Hst Hnew Hfrom Hofrom Hnonce Hto Hval Hdata Hcap Hfit Hofit
    Hothers.
  assert (oldHash ≠ Hash (Eth tx)) as Hne by congruence.
  assert (∀ r, capsFit (Eth r) →
               cancelCondition from from (Eth tx) (Eth r)
               = bool_decide (capSum (Eth tx) > capSum (Eth r))) as Hcc.
  { intros r Hr. unfold cancelCondition. rewrite Hval, Hdata.
    rewrite (gasCapOf_fits _ Hfit), (gasCapOf_fits _ Hr).
    rewrite bool_decide_eq_true_2 by done.
    rewrite (bool_decide_eq_true_2 (Int64 0 = 0)) by done.
    rewrite (bool_decide_eq_true_2 (length [] = 0%nat)) by done.
    by rewrite andb_true_r. }
  exists (<[oldHash := with_Status CANCELED old]> store).
  split; [| split; [| split; [| split]]].
  - assert (oldHash ∈ order) as Hin by (by apply (rangeOrder_elem_of store); eauto).
    apply list_elem_of_split_l in Hin as (pre & rest & -> & Hpre).
    unfold StoreTransaction.
    destruct (StoreTransaction_range_app Sender tx pre (oldHash :: rest) false store)
      as [b ->].
    { intros h r Hh Hl.
      assert (h ≠ oldHash) as Hho by (intros ->; done).
      assert (h ≠ Hash (Eth tx)) as Hhn by congruence.
      destruct (decide (Status r = SPEDUP)) as [Hsp | Hsp].
      { exists false. apply StoreTransaction_entry_stranger; eauto. }
      destruct (sharesSenderNonce Sender (ChainId (Eth tx)) (Eth tx) (Eth r)) eqn:Hsh.
      2:{ exists false. apply StoreTransaction_entry_stranger; eauto. }
      destruct (Hothers h r Hho Hl Hsp Hsh) as (Hrfit & Hlow & Hhigh).
      destruct (StoreTransaction_entry_sharer tx h r false store from Hhn Hsp Hsh Hto)
        as (from' & Hfrom' & ->).
      rewrite Hfrom in Hfrom'. injection Hfrom' as <-.
      rewrite (Hcc r Hrfit). case_bool_decide as Hgt.
      - rewrite (changeTransactionStatus_cancel_fails _ _ r) by auto.
        by exists true.
      - destruct (To (Eth r)) as [oldTo |] eqn:Hrto.
        2:{ exfalso. apply Hhigh; [lia | done]. }
        exists false. unfold speedUpCondition.
        rewrite (gasCapOf_fits _ Hfit), (gasCapOf_fits _ Hrfit).
        rewrite (bool_decide_eq_false_2 (capSum (Eth tx) > capSum (Eth r))) by done.
        by rewrite andb_false_r. }
    rewrite (StoreTransaction_range_cons _ _ _ old) by done.
    destruct (StoreTransaction_entry_sharer tx oldHash old b store from)
      as (from' & Hfrom' & ->); try done.
    { by rewrite Hst. }
    { unfold sharesSenderNonce. rewrite Hofrom, Hfrom.
      by rewrite !bool_decide_eq_true_2. }
    rewrite Hfrom in Hfrom'. injection Hfrom' as <-.
    rewrite (Hcc old Hofit), bool_decide_eq_true_2 by done.
    by rewrite (changeTransactionStatus_stored _ _ _ old).
  - exists (with_Status CANCELED old). by rewrite lookup_insert_eq.
  - intros h Hh. by apply lookup_insert_ne.
  - by rewrite lookup_insert_ne.
  - apply map_size_insert_Some. eauto.
Qed.


(** *** Uniqueness of STORED records per sender and nonce *)










End Classifier.

(** ** MonitorGas *)

Section MonitorGasFacts.

Variable sendTransaction : string → bool * option string.

Implicit Types (st : MonitorState) (tx : Transaction).

(** What the body of the loop does for one key: it passes (the key is
    not in the store, the record is not STORED, or its cap sum is below
    the gas price), it blocks (the mutex is held), or it calls the node
    and leaves the record in the status that the answer decides. *)
Lemma MonitorGas_entry_cases gasPrice hash st :
  (MonitorGas_entry sendTransaction gasPrice hash st = TickDone st
   ∧ ∀ tx, storedTransactions st !! hash = Some tx → eligible gasPrice tx = false)
  ∨ (MonitorGas_entry sendTransaction gasPrice hash st = TickBlocked st
     ∧ mutexHeld st = true
     ∧ ∃ tx, storedTransactions st !! hash = Some tx ∧ eligible gasPrice tx = true)
  ∨ (∃ tx st',
       MonitorGas_entry sendTransaction gasPrice hash st = TickDone st'
       ∧ storedTransactions st !! hash = Some tx
       ∧ eligible gasPrice tx = true
       ∧ mutexHeld st = false
       ∧ sent st' = hash :: sent st
       ∧ storedTransactions st' =
           <[hash := with_Status (statusAfterSend (sendTransaction (RawHex tx))) tx]>
             (storedTransactions st)
       ∧ mutexHeld st' =
           bool_decide (statusAfterSend (sendTransaction (RawHex tx)) = STORED)).
Proof.
  unfold MonitorGas_entry.
  destruct (storedTransactions st !! hash) as [tx |] eqn:Hl; [| left; by split].
  destruct (decide (Status tx ≠ STORED)) as [Hs | Hs].
  { left. split; [done |]. intros ? [= <-]. unfold eligible.
    by rewrite (bool_decide_eq_false_2 (Status tx = STORED)). }
  apply dec_stable in Hs.
  destruct (decide (gasCapOf (Eth tx) >= int64_of_float64 gasPrice)) as [Hcap | Hcap].
  2:{ rewrite (bool_decide_eq_false_2 _ Hcap).
      left. split; [done |]. intros ? [= <-]. unfold eligible.
      by rewrite (bool_decide_eq_false_2 _ Hcap), andb_false_r. }
  rewrite (bool_decide_eq_true_2 _ Hcap).
  assert (eligible gasPrice tx = true) as Hel.
  { unfold eligible.
    by rewrite (bool_decide_eq_true_2 _ Hs), (bool_decide_eq_true_2 _ Hcap). }
  destruct (mutexHeld st) eqn:Hm.
  { right; left. split; [done |]. split; [done |]. eauto. }
  right; right. exists tx.
  destruct (sendTransaction (RawHex tx)) as [isRPCErr [e |]] eqn:Hans.
  - destruct isRPCErr.
    + eexists. split; [done |]. do 4 (split; [done |]). split; [| reflexivity]. cbn.
      by rewrite (changeTransactionStatus_stored _ _ _ tx).
    + eexists. split; [done |]. do 4 (split; [done |]). split; [| reflexivity]. cbn.
      rewrite <- Hs, with_Status_same. by rewrite insert_id.
  - eexists. split; [done |]. do 4 (split; [done |]). split; [| reflexivity]. cbn.
    by rewrite (changeTransactionStatus_stored _ _ _ tx).
Qed.

(** The loop only writes to records under the keys it visits. *)
Lemma MonitorGas_range_other gasPrice order st h :
  h ∉ order →
  storedTransactions (stateOf (MonitorGas_range sendTransaction gasPrice order st)) !! h
  = storedTransactions st !! h.
Proof.
  revert st. induction order as [| k rest IH]; intros st Hh; [done |].
  apply not_elem_of_cons in Hh as [Hne Hh].
  cbn [MonitorGas_range].
  destruct (MonitorGas_entry_cases gasPrice k st)
    as [[-> _] | [(-> & _) | (tx & st' & -> & _ & _ & _ & _ & Hst & _)]].
  - by apply IH.
  - done.
  - rewrite IH by done. rewrite Hst. by apply lookup_insert_ne.
Qed.

(** Every key in the log of calls is there from before, or it is a key of
    the visiting order under which a record was STORED with a cap sum that
    reaches the gas price, and that record is left in the status that the
    answer of the node decides. *)
Lemma MonitorGas_range_sent gasPrice order st h :
  NoDup order →
  h ∈ sent (stateOf (MonitorGas_range sendTransaction gasPrice order st)) →
  h ∈ sent st
  ∨ (h ∈ order
     ∧ ∃ tx, storedTransactions st !! h = Some tx
             ∧ eligible gasPrice tx = true
             ∧ storedTransactions
                 (stateOf (MonitorGas_range sendTransaction gasPrice order st)) !! h
               = Some (with_Status (statusAfterSend (sendTransaction (RawHex tx))) tx)).
Proof.
  revert st. induction order as [| k rest IH]; intros st Hnd Hin; [by left |].
  apply NoDup_cons in Hnd as [Hk Hnd].
  cbn [MonitorGas_range] in *.
  destruct (MonitorGas_entry_cases gasPrice k st)
    as [[He _] | [(He & _) | (tx & st' & He & Hl & Hel & _ & Hsent & Hst & _)]];
    rewrite He in *.
  - destruct (IH st Hnd Hin) as [? | (Hr & tx & ?)]; [by left |].
    right. split; [by apply list_elem_of_further | eauto].
  - by left.
  - destruct (IH st' Hnd Hin) as [Hold | (Hr & tx' & Hl' & Hel' & Hfin)].
    + rewrite Hsent in Hold. apply elem_of_cons in Hold as [-> | Hold]; [| by left].
      right. split; [apply list_elem_of_here |]. exists tx.
      split; [done |]. split; [done |].
      rewrite MonitorGas_range_other by done.
      rewrite Hst. apply lookup_insert_eq.
    + right. split; [by apply list_elem_of_further |]. exists tx'.
      assert (k ≠ h) as Hne by (intros ->; done).
      rewrite Hst, lookup_insert_ne in Hl' by done. eauto.
Qed.


(** As long as the node answers every call without a transport error, a
    tick that starts with the mutex free runs to its end with the mutex
    free, and has called the node for exactly the records that are STORED
    with a cap sum that reaches the gas price. *)
Lemma MonitorGas_range_eligible gasPrice order st :
  NoDup order →
  mutexHeld st = false →
  (∀ h tx, h ∈ order → storedTransactions st !! h = Some tx →
     eligible gasPrice tx = true →
     statusAfterSend (sendTransaction (RawHex tx)) ≠ STORED) →
  ∃ st', MonitorGas_range sendTransaction gasPrice order st = TickDone st'
         ∧ mutexHeld st' = false
         ∧ ∀ h, h ∈ sent st' ↔
             h ∈ sent st
             ∨ (h ∈ order ∧ ∃ tx, storedTransactions st !! h = Some tx
                                  ∧ eligible gasPrice tx = true).
Proof.
  revert st. induction order as [| k rest IH]; intros st Hnd Hfree Hans.
  { exists st. split; [done |]. split; [done |]. intros h. split; [by left |].
    intros [? | [Hin _]]; [done | by apply elem_of_nil in Hin]. }
  apply NoDup_cons in Hnd as [Hk Hnd].
  cbn [MonitorGas_range].
  destruct (MonitorGas_entry_cases gasPrice k st)
    as [[He Hskip] | [(_ & Hheld & _)
       | (tx & st1 & He & Hl & Hel & _ & Hsent & Hst & Hm)]];
    [| congruence |]; rewrite He.
  - destruct (IH st Hnd Hfree) as (st' & Hrun & Hfree' & Hlog).
    { intros h tx Hin. apply (Hans h). by apply list_elem_of_further. }
    exists st'. split; [done |]. split; [done |].
    intros h. rewrite Hlog, elem_of_cons. split.
    + intros [? | [Hin Htx]]; [by left | right; by split; [right |]].
    + intros [? | [[-> | Hin] (tx & Hl & Hel)]]; [by left | | right; eauto].
      specialize (Hskip tx Hl). congruence.
  - assert (statusAfterSend (sendTransaction (RawHex tx)) ≠ STORED) as Hns
      by (apply (Hans k tx); [apply list_elem_of_here | done | done]).
    rewrite bool_decide_eq_false_2 in Hm by done.
    assert (∀ h, h ∈ rest → storedTransactions st1 !! h = storedTransactions st !! h)
      as Hsame.
    { intros h Hin. rewrite Hst. apply lookup_insert_ne. intros ->. done. }
    destruct (IH st1 Hnd Hm) as (st' & Hrun & Hfree' & Hlog).
    { intros h tx' Hin Hl'. rewrite Hsame in Hl' by done.
      apply (Hans h); [by apply list_elem_of_further | done]. }
    exists st'. split; [done |]. split; [done |].
    intros h. rewrite Hlog, Hsent, !elem_of_cons. split.
    + intros [[-> | ?] | [Hin (tx' & Hl' & Hel')]].
      * right. split; [by left | eauto].
      * by left.
      * right. split; [by right |]. rewrite Hsame in Hl' by done. eauto.
    + intros [? | [[-> | Hin] (tx' & Hl' & Hel')]].
      * left. by right.
      * left. by left.
      * right. split; [done |]. exists tx'. by rewrite Hsame.
Qed.

End MonitorGasFacts.

(** ** The properties on the sample transactions *)

Lemma rangeOrder_map_to_list (store : gmap string Transaction) :
  rangeOrder store (map_to_list store).*1.
Proof. unfold rangeOrder. reflexivity. Qed.

Lemma storeA_lookup_inv (h : string) (r : Transaction) :
  storeA !! h = Some r → h = "0xa1" ∧ r = txA.
Proof. unfold storeA. by intros [-> ->]%lookup_singleton_Some. Qed.

Lemma storeAHigh_lookup_inv (h : string) (r : Transaction) :
  storeAHigh !! h = Some r → (h = "0xa1" ∧ r = txA) ∨ (h = "0xa9" ∧ r = txHigh).
Proof.
  unfold storeAHigh, storeA. rewrite lookup_insert.
  case_decide as Hh; [intros [= <-]; by right |].
  intros [-> ->]%lookup_singleton_Some. by left.
Qed.

(** With two bytes or more, and with a value that is not a string,
    isValidHexRawTx returns nil or an error. *)
Lemma isValidHexRawTx_samples :
  isValidHexRawTx (JString "0x02f8") = Nil
  ∧ isValidHexRawTx (JString "abcdef") = Error "invalid transaction hex"
  ∧ isValidHexRawTx (JNumber 123) = Error "the param is not a string".
Proof. repeat split. Qed.



(** C2, as stated, fails: the signature of txBad does not recover, and
    StoreTransaction returns nil and has stored it. *)
Lemma StoreTransaction_unrecoverable_is_stored :
  sampleSender (ChainId (Eth txBad)) (Eth txBad) = None
  ∧ StoreTransaction sampleSender txBad ["0xa1"] storeA =
      Returned None (<["0xbad" := txBad]> storeA)
  ∧ <["0xbad" := txBad]> storeA !! "0xbad" = Some txBad
  ∧ storeA !! "0xbad" = None.
Proof. repeat split; by vm_compute. Qed.

(** C2, amended, on txBad and the store that holds txA. *)
Lemma StoreTransaction_sender_unrecoverable_witness :
  sampleSender (ChainId (Eth txBad)) (Eth txBad) = None
  ∧ storeA !! Hash (Eth txBad) = None
  ∧ ∃ store',
      StoreTransaction sampleSender txBad ["0xa1"] storeA = Returned None store'
      ∧ (∃ r, store' !! Hash (Eth txBad) = Some r
              ∧ Status r = STORED ∧ Eth r = Eth txBad ∧ RawHex r = RawHex txBad)
      ∧ ∀ h, h ≠ Hash (Eth txBad) → store' !! h = storeA !! h.
Proof.
  split; [reflexivity |]. split; [reflexivity |].
  apply (StoreTransaction_sender_unrecoverable sampleSender txBad ["0xa1"] storeA);
    reflexivity.
Defined.

(** C4, as stated, fails: txA and txLow are both STORED with the sender and
    the nonce of the cancel transaction txCancel, whose cap sum is above
    both; the loop meets txLow first and returns after cancelling it, and
    txA is still STORED. *)
Lemma StoreTransaction_cancel_other_record :
  rangeOrder storeALow ["0xa3"; "0xa1"]
  ∧ storeALow !! "0xa1" = Some txA ∧ Status txA = STORED
  ∧ storeALow !! Hash (Eth txCancel) = None
  ∧ sampleSender 5 (Eth txCancel) = Some 7 ∧ sampleSender 5 (Eth txA) = Some 7
  ∧ Nonce (Eth txCancel) = Nonce (Eth txA)
  ∧ To (Eth txCancel) = Some 7 ∧ Value (Eth txCancel) = 0 ∧ Data (Eth txCancel) = []
  ∧ GasFeeCap (Eth txCancel) + GasTipCap (Eth txCancel)
    > GasFeeCap (Eth txA) + GasTipCap (Eth txA)
  ∧ StoreTransaction sampleSender txCancel ["0xa3"; "0xa1"] storeALow =
      Returned None (<["0xa3" := with_Status CANCELED txLow]> storeALow)
  ∧ <["0xa3" := with_Status CANCELED txLow]> storeALow !! "0xa1" = Some txA.
Proof. repeat split; by vm_compute. Qed.

(** C4, amended, on txCancel and the store that holds txA and, with the
    same sender and nonce, txHigh, whose cap sum is above the one of
    txCancel: txHigh is visited first and is as it was, txA is CANCELED. *)
Lemma StoreTransaction_cancel_witness :
  ∃ store',
    StoreTransaction sampleSender txCancel ["0xa9"; "0xa1"] storeAHigh
    = Returned None store'
    ∧ (∃ old', store' !! "0xa1" = Some old'
               ∧ Status old' = CANCELED
               ∧ Eth old' = Eth txA ∧ RawHex old' = RawHex txA)
    ∧ (∀ h, h ≠ "0xa1" → store' !! h = storeAHigh !! h)
    ∧ store' !! Hash (Eth txCancel) = None
    ∧ size store' = size storeAHigh.
Proof.
  apply (StoreTransaction_cancel sampleSender txCancel ["0xa9"; "0xa1"] storeAHigh
           "0xa1" txA 7);
    try closed_by_computation.
  - by vm_compute.
  - by vm_compute.
  - intros h r Hne [[-> ->] | [-> ->]]%storeAHigh_lookup_inv _ _; [done |].
    split; [by vm_compute |]. split; [| done].
    intros Hgt. by vm_compute in Hgt.
Defined.



(** ** Duplicates *)

Section Duplicates.

Variable Sender : Z → EthTransaction → option Address.

(** The duplicate test is part of the loop body: it fires when the loop
    reaches the key of the new transaction, which it does when every
    entry before it is passed over.  That holds for every visiting order
    when the sender of the transaction recovers and no other live record
    shares its sender and nonce. *)
Lemma StoreTransaction_duplicate (tx r : Transaction) (order : list string)
    (store : gmap string Transaction) :
  rangeOrder store order →
  store !! Hash (Eth tx) = Some r →
  is_Some (Sender (ChainId (Eth tx)) (Eth tx)) →
  (∀ h r', h ≠ Hash (Eth tx) → store !! h = Some r' →
     Status r' = SPEDUP
     ∨ sharesSenderNonce Sender (ChainId (Eth tx)) (Eth tx) (Eth r') = false) →
  StoreTransaction Sender tx order store =
    Returned (Some (errAlready (Status r))) store.
Proof.
  intros Hord Hl Hsender Hothers.
  assert (Hash (Eth tx) ∈ order) as Hin
    by (by apply (rangeOrder_elem_of store); eauto).
  apply list_elem_of_split_l in Hin as (pre & rest & -> & Hpre).
  unfold StoreTransaction.
  destruct (StoreTransaction_range_app Sender tx pre (Hash (Eth tx) :: rest) false store)
    as [b ->].
  { intros h r' Hh Hl'. exists false.
    assert (h ≠ Hash (Eth tx)) as Hne by (intros ->; done).
    apply StoreTransaction_entry_stranger; eauto. }
  rewrite (StoreTransaction_range_cons _ _ _ r) by done.
  unfold StoreTransaction_entry. by rewrite decide_True.
Qed.

End Duplicates.

(** C6 on the code: txA and txA' are STORED (same sender, nonce, recipient,
    value and data, equal cap sums), txFast speeds one of them up and is
    stored.  A second StoreTransaction of txFast, in the visiting order
    0xa1, 0xa2, 0xa4, meets txA' before the key of txFast: it returns nil,
    not the duplicate error, and txA' has become SPEDUP. *)
Lemma StoreTransaction_twice_no_duplicate_error :
  ingested sampleSender anyTransaction storeAAFast
  ∧ StoreTransaction sampleSender txFast ["0xa1"; "0xa2"] storeAA =
      Returned None storeAAFast
  ∧ storeAAFast !! Hash (Eth txFast) = Some txFast
  ∧ rangeOrder storeAAFast ["0xa1"; "0xa2"; "0xa4"]
  ∧ StoreTransaction sampleSender txFast ["0xa1"; "0xa2"; "0xa4"] storeAAFast =
      Returned None (<["0xa2" := with_Status SPEDUP txA']> storeAAFast)
  ∧ storeAAFast !! "0xa2" = Some txA'
  ∧ <["0xa2" := with_Status SPEDUP txA']> storeAAFast !! "0xa2"
    = Some (with_Status SPEDUP txA').
Proof.
  split; [| repeat split; closed_by_computation].
  replace storeAAFast
    with (storeOf (StoreTransaction sampleSender txFast ["0xa1"; "0xa2"]
            (storeOf (StoreTransaction sampleSender txA' ["0xa1"]
               (storeOf (StoreTransaction sampleSender txA [] ∅))))))
    by closed_by_computation.
  repeat (apply ingested_call; [| closed_by_computation | done]).
  apply ingested_empty.
Qed.

(** In the visiting order that starts at the key of txFast, the same call
    returns the duplicate error. *)
Lemma StoreTransaction_twice_duplicate_error :
  StoreTransaction sampleSender txFast ["0xa4"; "0xa1"; "0xa2"] storeAAFast =
    Returned (Some "already STORED") storeAAFast.
Proof. closed_by_computation. Qed.

(** ** Panics of StoreTransaction *)

(** C9 on the code: txA is stored and the contract creation txCreate has its
    sender and nonce; the cancel test dereferences [tx.To()], which is nil,
    and StoreTransaction panics.  The other way round, with the contract
    creation in the store, the speed-up test dereferences [oldTx.To()]. *)
Lemma StoreTransaction_contract_creation_panics :
  To (Eth txCreate) = None
  ∧ sharesSenderNonce sampleSender 5 (Eth txCreate) (Eth txA) = true
  ∧ StoreTransaction sampleSender txCreate ["0xa1"] storeA = Panicked storeA
  ∧ StoreTransaction sampleSender txFast ["0xa7"] storeCreate = Panicked storeCreate.
Proof. repeat split; closed_by_computation. Qed.

(** ** The monitor on the sample transactions *)

(** C7 on the code: txA and txA' are STORED with a cap sum of 10, the gas
    price is 1, and the node cannot be reached for txA.  The monitor calls
    the node for txA, returns from the call with the mutex held, and blocks
    in [Lock] at txA': the node is never called for it. *)
Lemma MonitorGas_tick_blocks_after_transport_error :
  storeAA !! "0xa1" = Some txA ∧ storeAA !! "0xa2" = Some txA'
  ∧ eligible (float64_of_int64 1) txA = true
  ∧ eligible (float64_of_int64 1) txA' = true
  ∧ sampleSend (RawHex txA) = (false, Some "unexpected http status code: 502")
  ∧ rangeOrder storeAA ["0xa1"; "0xa2"]
  ∧ MonitorGas_tick sampleSend (fetchedPrice 1) ["0xa1"; "0xa2"] (monitorStart storeAA) =
      TickBlocked {| storedTransactions := storeAA;
                     mutexHeld := true;
                     sent := ["0xa1"] |}.
Proof. repeat split; closed_by_computation. Qed.

(** In the other visiting order the node is called for both; the mutex is
    held when the tick ends, and the next tick blocks at txA. *)
Lemma MonitorGas_tick_blocks_next_tick :
  MonitorGas_tick sampleSend (fetchedPrice 1) ["0xa2"; "0xa1"] (monitorStart storeAA) =
    TickDone {| storedTransactions := <["0xa2" := with_Status BROADCASTED txA']> storeAA;
                mutexHeld := true;
                sent := ["0xa1"; "0xa2"] |}
  ∧ MonitorGas_tick sampleSend (fetchedPrice 1) ["0xa2"; "0xa1"]
      {| storedTransactions := <["0xa2" := with_Status BROADCASTED txA']> storeAA;
         mutexHeld := true;
         sent := [] |} =
    TickBlocked {| storedTransactions := <["0xa2" := with_Status BROADCASTED txA']> storeAA;
                   mutexHeld := true;
                   sent := [] |}.
Proof. split; closed_by_computation. Qed.

(** The cap sum is computed in 64 bits: a fee cap of 2^63 wei wraps to a
    negative number, and the record is not sent at a gas price of 1. *)
Lemma MonitorGas_tick_cap_wraps :
  GasFeeCap (Eth txHuge) + GasTipCap (Eth txHuge) >= 1
  ∧ gasCapOf (Eth txHuge) = - 2 ^ 63
  ∧ MonitorGas_tick sampleSend (fetchedPrice 1) ["0xa8"] (monitorStart storeHuge) =
      TickDone (monitorStart storeHuge).
Proof. repeat split; closed_by_computation. Qed.

(** The gas price reaches the comparison through [float64]: a price of
    2^53 + 1 wei is compared as 2^53, and a record with a cap sum of 2^53
    is sent although its cap sum is below the price. *)
Lemma MonitorGas_tick_price_rounds :
  capSum (Eth txRound) < 2 ^ 53 + 1
  ∧ gasCapOf (Eth txRound) = capSum (Eth txRound)
  ∧ eligible (float64_of_int64 (2 ^ 53 + 1)) txRound = true
  ∧ sent (stateOf (MonitorGas_tick sampleAccept (fetchedPrice (2 ^ 53 + 1)) ["0xaa"]
                     (monitorStart storeRound)))
    = ["0xaa"].
Proof. repeat split; closed_by_computation. Qed.


(** * Further properties *)

(** ** The status machine *)

(** A call leaves the records under the other keys alone. *)
Lemma changeTransactionStatus_other (hash : string) (newStatus : TransactionStatus)
    (store : gmap string Transaction) (h : string) :
  h ≠ hash → (changeTransactionStatus hash newStatus store).2 !! h = store !! h.
Proof.
  intros Hne. rewrite changeTransactionStatus_allowed.
  destruct (store !! hash) as [trx |] eqn:Hl; [| done].
  destruct (bool_decide _); cbn [snd]; [by apply lookup_insert_ne | done].
Qed.

(** The record under the hash after a call. *)
Lemma changeTransactionStatus_same (hash : string) (newStatus : TransactionStatus)
    (store : gmap string Transaction) (r : Transaction) :
  store !! hash = Some r →
  ∃ r', (changeTransactionStatus hash newStatus store).2 !! hash = Some r'
        ∧ Eth r' = Eth r ∧ RawHex r' = RawHex r
        ∧ (r' = r
           ∨ (Status r' = newStatus
              ∧ (statusRank newStatus < statusRank (Status r))%nat)).
Proof.
  intros Hl. rewrite changeTransactionStatus_allowed, Hl.
  rewrite <- inTable_allowed.
  destruct (inTable _ _) eqn:Ht; cbn [snd].
  - exists (with_Status newStatus r).
    split; [apply lookup_insert_eq |]. split; [done |]. split; [done |].
    right. split; [done |].
    destruct (Status r), newStatus; cbn; first [lia | discriminate Ht].
  - exists r. auto.
Qed.

(** X1. changeTransactionStatus never inserts or deletes a key and never
    touches a record under another key; the record under the hash keeps its
    transaction and its raw hex, and its status is either the one it had or
    the new one, which is then strictly nearer to the end of the machine. *)
Theorem changeTransactionStatus_frame (hash : string) (newStatus : TransactionStatus)
    (store : gmap string Transaction) :
  dom (changeTransactionStatus hash newStatus store).2 = dom store
  ∧ (∀ h, h ≠ hash →
       (changeTransactionStatus hash newStatus store).2 !! h = store !! h)
  ∧ (∀ r, store !! hash = Some r →
       ∃ r', (changeTransactionStatus hash newStatus store).2 !! hash = Some r'
             ∧ Eth r' = Eth r ∧ RawHex r' = RawHex r
             ∧ (r' = r
                ∨ (Status r' = newStatus
                   ∧ (statusRank newStatus < statusRank (Status r))%nat))).
Proof.
  split; [| split].
  - rewrite changeTransactionStatus_allowed.
    destruct (store !! hash) as [trx |] eqn:Hl; [| done].
    destruct (bool_decide _); cbn [snd]; [| done].
    apply dom_insert_lookup_L. eauto.
  - intros h. apply changeTransactionStatus_other.
  - intros r. apply changeTransactionStatus_same.
Qed.

Lemma changeTransactionStatus_calls_snoc calls call store :
  changeTransactionStatus_calls (calls ++ [call]) store =
    (changeTransactionStatus call.1 call.2 (changeTransactionStatus_calls calls store)).2.
Proof. unfold changeTransactionStatus_calls. by rewrite foldl_app. Qed.

(** X2. Through any sequence of changeTransactionStatus calls a record
    stays in the store with its transaction and raw hex, its status never
    moves away from the end of the machine (so it never is STORED again
    once it was not, and changes at most twice), and a record whose status
    is where it was is the record it was. *)
Theorem changeTransactionStatus_calls_monotone
    (calls : list (string * TransactionStatus))
    (store : gmap string Transaction) (h : string) (r : Transaction) :
  store !! h = Some r →
  ∃ r', changeTransactionStatus_calls calls store !! h = Some r'
        ∧ Eth r' = Eth r ∧ RawHex r' = RawHex r
        ∧ (statusRank (Status r') ≤ statusRank (Status r))%nat
        ∧ (statusRank (Status r') = statusRank (Status r) → r' = r).
Proof.
  intros Hl. induction calls as [| call calls IH] using rev_ind.
  { exists r. by repeat split. }
  destruct IH as (r1 & Hl1 & Heth & Hraw & Hle & Hsame).
  rewrite changeTransactionStatus_calls_snoc.
  destruct (decide (h = call.1)) as [-> | Hne].
  - destruct (changeTransactionStatus_same call.1 call.2 _ r1 Hl1)
      as (r' & Hl' & Heth' & Hraw' & [-> | [Hs Hlt]]).
    + exists r1. by repeat split.
    + exists r'. split; [done |]. split; [congruence |]. split; [congruence |].
      rewrite Hs. split; lia.
  - exists r1. rewrite changeTransactionStatus_other by done. by repeat split.
Qed.

(** X3. CancelTransaction returns nil exactly when the hash is a key whose
    record is STORED; the store it leaves then has that record CANCELED and
    nothing else changed, and a second CancelTransaction of the same hash
    fails with the invalid-transition error and changes nothing. *)
Theorem CancelTransaction_twice (hash : string) (store : gmap string Transaction) :
  ((CancelTransaction hash store).1 = None
   ↔ ∃ r, store !! hash = Some r ∧ Status r = STORED)
  ∧ (∀ r, store !! hash = Some r → Status r = STORED →
       CancelTransaction hash store = (None, <[hash := with_Status CANCELED r]> store)
       ∧ CancelTransaction hash (<[hash := with_Status CANCELED r]> store) =
           (Some (errInvalidTransition CANCELED CANCELED hash),
            <[hash := with_Status CANCELED r]> store)).
Proof.
  unfold CancelTransaction. split.
  - rewrite changeTransactionStatus_allowed.
    destruct (store !! hash) as [r |] eqn:Hl.
    + rewrite <- inTable_allowed. split.
      * destruct (Status r) eqn:Hs; cbn; try discriminate. eauto.
      * intros (r' & [= <-] & ->). done.
    + split; [discriminate | by intros (r & ? & _)].
  - intros r Hl Hs. split.
    + by apply changeTransactionStatus_stored.
    + rewrite (changeTransactionStatus_cancel_fails _ _ (with_Status CANCELED r)); try done.
      apply lookup_insert_eq.
Qed.

(** ** StoreTransaction: what a call can do to the store *)

Section StoreTransactionEffects.

Variable Sender : Z → EthTransaction → option Address.

Implicit Types (tx old : Transaction) (store : gmap string Transaction).

(** The four things a call can have done when it ends: nothing; one STORED
    record CANCELED; the transaction stored; one record SPEDUP and the
    transaction stored.  An error and a panic come with the first. *)
Lemma StoreTransaction_shapes tx order store :
  match StoreTransaction Sender tx order store with
  | Returned (Some _) store' | Panicked store' => store' = store
  | Returned None store' =>
      store' = store
      ∨ (∃ k r, store !! k = Some r ∧ Status r = STORED
                ∧ store' = <[k := with_Status CANCELED r]> store)
      ∨ store' = <[Hash (Eth tx) := with_Status STORED tx]> store
      ∨ (∃ k r, k ≠ Hash (Eth tx) ∧ store !! k = Some r
                ∧ (Status r = STORED ∨ Status r = CANCELED)
                ∧ store' = <[Hash (Eth tx) := with_Status STORED tx]>
                             (<[k := with_Status SPEDUP r]> store))
  end.
Proof.
  unfold StoreTransaction.
  destruct (StoreTransaction_range Sender tx order false store)
    as [b s1 | b s1 | err s1 | s1] eqn:Hrun.
  - apply StoreTransaction_range_Continue in Hrun as (-> & _).
    destruct b; auto.
  - apply StoreTransaction_range_Break in Hrun as (-> & _).
    destruct b; auto.
  - apply StoreTransaction_range_Return in Hrun as (h & r & b & _ & Hl & He).
    apply (StoreTransaction_entry_Return _ _ _ _ _ _ _ _ Hl) in He
      as [[[e ->] ->] | [(-> & Hs & ->) | (-> & Hne & Hs & _ & _ & ->)]].
    + done.
    + right; left. eauto.
    + right; right; right. exists h, r. eauto.
  - by apply StoreTransaction_range_Panic in Hrun.
Qed.

(** X4. A StoreTransaction that returns an error, or that panics, leaves
    the store as it was on entry. *)
Theorem StoreTransaction_error_keeps_store tx order store :
  match StoreTransaction Sender tx order store with
  | Returned (Some _) store' | Panicked store' => store' = store
  | Returned None _ => True
  end.
Proof.
  pose proof (StoreTransaction_shapes tx order store) as Hshape.
  by destruct (StoreTransaction Sender tx order store) as [[e |] s' | s'].
Qed.


(** X6. In every store that a finite sequence of StoreTransaction calls
    builds from the empty store, whatever the transactions and the visiting
    orders, each record is stored under the hash of its own transaction and
    is STORED, CANCELED or SPEDUP. *)
Theorem ingested_hash_is_key store h r :
  ingested Sender anyTransaction store →
  store !! h = Some r →
  Hash (Eth r) = h
  ∧ (Status r = STORED ∨ Status r = CANCELED ∨ Status r = SPEDUP).
Proof.
  intros Hing. revert h r.
  induction Hing as [| store tx order _ IH _ _]; intros h r Hl.
  { by rewrite lookup_empty in Hl. }
  pose proof (StoreTransaction_shapes tx order store) as Hshape.
  destruct (StoreTransaction Sender tx order store) as [[e |] s' | s'];
    cbn [storeOf] in Hl; try (subst s'; by apply IH).
  assert (∀ k r0 s, store !! k = Some r0 →
            s = CANCELED ∨ s = SPEDUP →
            ∀ h r, <[k := with_Status s r0]> store !! h = Some r →
              Hash (Eth r) = h
              ∧ (Status r = STORED ∨ Status r = CANCELED ∨ Status r = SPEDUP))
    as Hone.
  { intros k r0 s Hk Hs h' r'. rewrite lookup_insert.
    case_decide as Hh; [| by apply IH].
    intros [= <-]. subst h'. cbn. split; [by apply (IH k r0) | tauto]. }
  assert (∀ m : gmap string Transaction,
            (∀ h r, m !! h = Some r →
               Hash (Eth r) = h
               ∧ (Status r = STORED ∨ Status r = CANCELED ∨ Status r = SPEDUP)) →
            ∀ h r, <[Hash (Eth tx) := with_Status STORED tx]> m !! h = Some r →
              Hash (Eth r) = h
              ∧ (Status r = STORED ∨ Status r = CANCELED ∨ Status r = SPEDUP))
    as Hnew.
  { intros m Hm h' r'. rewrite lookup_insert.
    case_decide as Hh; [| by apply Hm].
    intros [= <-]. subst h'. cbn. tauto. }
  destruct Hshape as [-> | [(k & r0 & Hk & Hs & ->) | [-> | (k & r0 & Hne & Hk & Hs & ->)]]].
  - by apply IH.
  - apply (Hone k r0 CANCELED Hk); tauto.
  - by apply (Hnew store IH).
  - apply (Hnew (<[k := with_Status SPEDUP r0]> store)); [| done].
    apply (Hone k r0 SPEDUP Hk). tauto.
Qed.

End StoreTransactionEffects.

(** ** StoreTransaction: further cases of the classifier *)

Section ClassifierCases.

Variable Sender : Z → EthTransaction → option Address.

Implicit Types (tx old : Transaction) (store : gmap string Transaction).

(** A loop of which every pass goes on with the flag down ends with the
    flag down. *)
Lemma StoreTransaction_range_all_pass tx order store :
  (∀ h r, h ∈ order → store !! h = Some r →
     StoreTransaction_entry Sender tx h r false store = Continue false store) →
  StoreTransaction_range Sender tx order false store = Continue false store.
Proof.
  induction order as [| k rest IH]; intros Hall; [done |].
  assert (StoreTransaction_range Sender tx rest false store = Continue false store)
    as Hrest by (apply IH; intros h r Hin; apply Hall; by apply list_elem_of_further).
  destruct (store !! k) as [oldTx |] eqn:Hk.
  - rewrite (StoreTransaction_range_cons _ _ _ oldTx) by done.
    rewrite (Hall k oldTx) by (done || apply list_elem_of_here). done.
  - by rewrite StoreTransaction_range_skip.
Qed.

(** X7. A transaction whose hash is not a key, and against which every
    live record of its sender and nonce has a recipient (as the transaction
    has) and a cap sum (the 64-bit sum that the code computes) that is not
    below its own, is not a replacement: StoreTransaction returns nil, the
    store holds under the hash of the transaction a STORED record with
    that transaction and its raw hex, and no other record is changed.  In
    particular equal cap sums do not replace, and a transaction that
    shares sender and nonce with no live record is always stored. *)
Theorem StoreTransaction_no_replacement tx order store :
  store !! Hash (Eth tx) = None →
  (∀ h r, store !! h = Some r → Status r ≠ SPEDUP →
     sharesSenderNonce Sender (ChainId (Eth tx)) (Eth tx) (Eth r) = true →
     To (Eth tx) ≠ None ∧ To (Eth r) ≠ None
     ∧ gasCapOf (Eth tx) <= gasCapOf (Eth r)) →
  ∃ store',
    StoreTransaction Sender tx order store = Returned None store'
    ∧ (∃ new, store' !! Hash (Eth tx) = Some new
              ∧ Status new = STORED
              ∧ Eth new = Eth tx ∧ RawHex new = RawHex tx)
    ∧ ∀ h, h ≠ Hash (Eth tx) → store' !! h = store !! h.
Proof.
  intros Hnew Hsharers.
  exists (<[Hash (Eth tx) := with_Status STORED tx]> store).
  split; [| split;
              [exists (with_Status STORED tx); by rewrite lookup_insert_eq
              | intros h Hh; by apply lookup_insert_ne]].
  destruct (Sender (ChainId (Eth tx)) (Eth tx)) as [from |] eqn:Hfrom.
  2:{ unfold StoreTransaction.
      destruct (StoreTransaction_range_unrecoverable Sender tx order store Hfrom)
        as [(b & -> & [-> | ->]) | (r & Hl & _)]; [done | done | congruence]. }
  unfold StoreTransaction.
  rewrite StoreTransaction_range_all_pass; [done |].
  intros h r _ Hl.
  assert (h ≠ Hash (Eth tx)) as Hne by congruence.
  destruct (decide (Status r = SPEDUP)) as [Hsp | Hsp].
  { apply StoreTransaction_entry_stranger; eauto. }
  destruct (sharesSenderNonce Sender (ChainId (Eth tx)) (Eth tx) (Eth r)) eqn:Hsh.
  2:{ apply StoreTransaction_entry_stranger; eauto. }
  destruct (Hsharers h r Hl Hsp Hsh) as (Hto & Hoto & Hcap).
  destruct (To (Eth tx)) as [to |] eqn:Htx; [| done].
  destruct (StoreTransaction_entry_sharer Sender tx h r false store to Hne Hsp Hsh Htx)
    as (from' & _ & ->).
  assert (bool_decide (gasCapOf (Eth tx) > gasCapOf (Eth r)) = false) as Hgt
    by (apply bool_decide_eq_false_2; lia).
  unfold cancelCondition, speedUpCondition. rewrite Hgt.
  rewrite !andb_false_r. cbn [andb].
  destruct (To (Eth r)) as [oldTo |]; [| done].
  by rewrite !andb_false_r.
Qed.

(** The pass over an entry, for a transaction with the shape of a cancel
    whose hash is not the key. *)
Lemma StoreTransaction_entry_cancelShaped tx h r b store from :
  h ≠ Hash (Eth tx) →
  store !! h = Some r →
  Sender (ChainId (Eth tx)) (Eth tx) = Some from →
  cancelShaped from (Eth tx) = true →
  StoreTransaction_entry Sender tx h r b store = Continue b store
  ∨ StoreTransaction_entry Sender tx h r b store = Continue true store
  ∨ StoreTransaction_entry Sender tx h r b store = Panic store
  ∨ (Status r = STORED
     ∧ StoreTransaction_entry Sender tx h r b store =
         Return None (<[h := with_Status CANCELED r]> store)).
Proof.
  intros Hne Hl Hfrom Hshape.
  unfold cancelShaped in Hshape.
  apply andb_true_iff in Hshape as [[Hto Hval]%andb_true_iff Hlen].
  apply bool_decide_eq_true in Hto.
  destruct (decide (Status r = SPEDUP)) as [Hsp | Hsp].
  { left. apply StoreTransaction_entry_stranger; eauto. }
  destruct (sharesSenderNonce Sender (ChainId (Eth tx)) (Eth tx) (Eth r)) eqn:Hsh.
  2:{ left. apply StoreTransaction_entry_stranger; eauto. }
  destruct (StoreTransaction_entry_sharer Sender tx h r b store from Hne Hsp Hsh Hto)
    as (from' & Hfrom' & ->).
  rewrite Hfrom in Hfrom'. injection Hfrom' as <-.
  apply bool_decide_eq_true in Hval, Hlen.
  unfold cancelCondition, speedUpCondition.
  rewrite (bool_decide_eq_true_2 (from = from)) by done.
  rewrite (bool_decide_eq_true_2 _ Hval), (bool_decide_eq_true_2 _ Hlen).
  cbn [andb]. rewrite andb_true_r.
  destruct (decide (gasCapOf (Eth tx) > gasCapOf (Eth r))) as [Hgt | Hgt].
  - rewrite (bool_decide_eq_true_2 _ Hgt).
    destruct (decide (Status r = STORED)) as [Hs | Hs].
    + right; right; right. split; [done |].
      by rewrite (changeTransactionStatus_stored _ _ _ r).
    + right; left. by rewrite (changeTransactionStatus_cancel_fails _ _ r).
  - rewrite !(bool_decide_eq_false_2 _ Hgt).
    destruct (To (Eth r)) as [oldTo |]; [| by right; right; left].
    left. by rewrite !andb_false_r.
Qed.

(** X8. A transaction with the shape of a cancel (a zero-value transfer to
    its own sender without data) whose hash is not a key, and below whose
    cap sum some live record of its sender and nonce lies, is never stored,
    whatever the status of that record: the call panics or returns nil, and
    the hash of the transaction is not a key afterwards. *)
Theorem StoreTransaction_cancel_never_stored tx order store from k r :
  rangeOrder store order →
  store !! Hash (Eth tx) = None →
  Sender (ChainId (Eth tx)) (Eth tx) = Some from →
  cancelShaped from (Eth tx) = true →
  store !! k = Some r → Status r ≠ SPEDUP →
  sharesSenderNonce Sender (ChainId (Eth tx)) (Eth tx) (Eth r) = true →
  gasCapOf (Eth tx) > gasCapOf (Eth r) →
  (StoreTransaction Sender tx order store = Panicked store
   ∨ ∃ store', StoreTransaction Sender tx order store = Returned None store')
  ∧ storeOf (StoreTransaction Sender tx order store) !! Hash (Eth tx) = None.
Proof.
  intros Hord Hnew Hfrom Hshape Hk Hsp Hsh Hgt.
  assert (∀ h r0 b, store !! h = Some r0 →
            StoreTransaction_entry Sender tx h r0 b store = Continue b store
            ∨ StoreTransaction_entry Sender tx h r0 b store = Continue true store
            ∨ StoreTransaction_entry Sender tx h r0 b store = Panic store
            ∨ (Status r0 = STORED
               ∧ StoreTransaction_entry Sender tx h r0 b store =
                   Return None (<[h := with_Status CANCELED r0]> store))) as Hentry.
  { intros h r0 b Hl. apply (StoreTransaction_entry_cancelShaped tx h r0 b store from);
      try done. congruence. }
  unfold StoreTransaction.
  destruct (StoreTransaction_range Sender tx order false store)
    as [b s1 | b s1 | err s1 | s1] eqn:Hrun.
  - apply StoreTransaction_range_Continue in Hrun as (-> & _ & Hall).
    destruct (Hall k r) as (b0 & He & Hb0); [| done |].
    { apply (rangeOrder_elem_of store); eauto. }
    assert (b = true) as ->.
    { destruct b; [done |]. rewrite (Hb0 eq_refl) in He.
      assert (k ≠ Hash (Eth tx)) as Hne by congruence.
      apply andb_true_iff in Hshape as [[Hto Hval]%andb_true_iff Hlen].
      apply bool_decide_eq_true in Hto, Hval, Hlen.
      destruct (StoreTransaction_entry_sharer Sender tx k r false store from Hne Hsp Hsh Hto)
        as (from' & Hfrom' & Heq).
      rewrite Hfrom in Hfrom'. injection Hfrom' as <-.
      rewrite Heq in He.
      assert (cancelCondition from from (Eth tx) (Eth r) = true) as Hcc.
      { unfold cancelCondition.
        rewrite (bool_decide_eq_true_2 (from = from)) by done.
        by rewrite (bool_decide_eq_true_2 _ Hgt), (bool_decide_eq_true_2 _ Hval),
             (bool_decide_eq_true_2 _ Hlen). }
      rewrite Hcc in He.
      destruct (changeTransactionStatus k CANCELED store) as [[e |] s]; discriminate. }
    split; [right; eauto | done].
  - apply StoreTransaction_range_Break in Hrun as (_ & Hnone). congruence.
  - apply StoreTransaction_range_Return in Hrun as (h & r0 & b & _ & Hl & He).
    destruct (Hentry h r0 b Hl) as [He' | [He' | [He' | [_ He']]]];
      rewrite He' in He; try discriminate.
    injection He as <- <-. split; [right; eauto |].
    cbn [storeOf]. rewrite lookup_insert_ne by congruence. done.
  - apply StoreTransaction_range_Panic in Hrun as ->.
    split; [by left | done].
Qed.

(** X9. A transaction (its hash is not a key) that has not the shape of a
    cancel (a zero-value transfer to its own sender without data, as the
    code tests it) and that the speed-up test of the code matches against
    one live record of its sender and nonce, and against no other, by the
    status of that record: a STORED or CANCELED record becomes SPEDUP, with
    its transaction and raw hex, and the transaction is STORED under its
    hash; a FAILED or BROADCASTED record makes StoreTransaction return the
    invalid-transition error, and the store is as it was. *)
Theorem StoreTransaction_speed_up_by_status tx order store oldHash old from to :
  rangeOrder store order →
  store !! oldHash = Some old → Status old ≠ SPEDUP →
  store !! Hash (Eth tx) = None →
  Sender (ChainId (Eth tx)) (Eth tx) = Some from →
  sharesSenderNonce Sender (ChainId (Eth tx)) (Eth tx) (Eth old) = true →
  To (Eth tx) = Some to →
  cancelShaped from (Eth tx) = false →
  speedUpMatch (Eth tx) (Eth old) = true →
  (∀ h r, h ≠ oldHash → store !! h = Some r → Status r ≠ SPEDUP →
     sharesSenderNonce Sender (ChainId (Eth tx)) (Eth tx) (Eth r) = true →
     To (Eth r) ≠ None ∧ speedUpMatch (Eth tx) (Eth r) = false) →
  StoreTransaction Sender tx order store =
    match Status old with
    | FAILED | BROADCASTED =>
        Returned (Some (errInvalidTransition (Status old) SPEDUP oldHash)) store
    | _ =>
        Returned None (<[Hash (Eth tx) := with_Status STORED tx]>
                         (<[oldHash := with_Status SPEDUP old]> store))
    end
  ∧ (Status old = STORED ∨ Status old = CANCELED →
     ∃ old' new,
       storeOf (StoreTransaction Sender tx order store) !! oldHash = Some old'
       ∧ Status old' = SPEDUP ∧ Eth old' = Eth old ∧ RawHex old' = RawHex old
       ∧ storeOf (StoreTransaction Sender tx order store) !! Hash (Eth tx) = Some new
       ∧ Status new = STORED ∧ Eth new = Eth tx ∧ RawHex new = RawHex tx).
Proof.
  intros Hord Hold Hsp Hnew Hfrom Hsh Hto Hshape Hmatch Hothers.
  assert (oldHash ≠ Hash (Eth tx)) as Hne by congruence.
  enough (StoreTransaction Sender tx order store =
            match Status old with
            | FAILED | BROADCASTED =>
                Returned (Some (errInvalidTransition (Status old) SPEDUP oldHash)) store
            | _ =>
                Returned None (<[Hash (Eth tx) := with_Status STORED tx]>
                                 (<[oldHash := with_Status SPEDUP old]> store))
            end) as Heq.
  { split; [exact Heq |]. rewrite Heq.
    intros Hs. exists (with_Status SPEDUP old), (with_Status STORED tx).
    destruct Hs as [-> | ->]; cbn [storeOf];
      rewrite lookup_insert_eq, lookup_insert_ne, lookup_insert_eq by done;
      done. }
  assert (∀ r, cancelCondition from to (Eth tx) (Eth r) = false) as Hcc.
  { intros r. unfold cancelShaped in Hshape. unfold cancelCondition.
    rewrite Hto in Hshape.
    destruct (decide (from = to)) as [<- | Hft];
      [| by rewrite (bool_decide_eq_false_2 (from = to))].
    rewrite (bool_decide_eq_true_2 (Some from = Some from)) in Hshape by done.
    rewrite (bool_decide_eq_true_2 (from = from)) by done.
    cbn [andb] in *.
    destruct (bool_decide (Int64 (Value (Eth tx)) = 0)); [| done].
    cbn [andb] in *. rewrite Hshape. by rewrite andb_false_r. }
  assert (oldHash ∈ order) as Hin by (by apply (rangeOrder_elem_of store); eauto).
  apply list_elem_of_split_l in Hin as (pre & rest & -> & Hpre).
  unfold StoreTransaction.
  destruct (StoreTransaction_range_app Sender tx pre (oldHash :: rest) false store)
    as [b ->].
  { intros h r Hh Hl.
    assert (h ≠ oldHash) as Hho by (intros ->; done).
    assert (h ≠ Hash (Eth tx)) as Hhn by congruence.
    destruct (decide (Status r = SPEDUP)) as [Hrs | Hrs].
    { exists false. apply StoreTransaction_entry_stranger; eauto. }
    destruct (sharesSenderNonce Sender (ChainId (Eth tx)) (Eth tx) (Eth r)) eqn:Hrsh.
    2:{ exists false. apply StoreTransaction_entry_stranger; eauto. }
    destruct (Hothers h r Hho Hl Hrs Hrsh) as [Hrto Hnm].
    destruct (StoreTransaction_entry_sharer Sender tx h r false store to Hhn Hrs Hrsh Hto)
      as (from' & Hfrom' & ->).
    rewrite Hfrom in Hfrom'. injection Hfrom' as <-.
    rewrite Hcc. unfold speedUpMatch in Hnm. rewrite Hto in Hnm.
    destruct (To (Eth r)) as [oldTo |]; [| done].
    rewrite Hnm. by exists false. }
  rewrite (StoreTransaction_range_cons _ _ _ old) by done.
  destruct (StoreTransaction_entry_sharer Sender tx oldHash old b store to Hne Hsp Hsh Hto)
    as (from' & Hfrom' & ->).
  rewrite Hfrom in Hfrom'. injection Hfrom' as <-.
  rewrite Hcc. unfold speedUpMatch in Hmatch. rewrite Hto in Hmatch.
  destruct (To (Eth old)) as [oldTo |]; [| done].
  rewrite Hmatch, changeTransactionStatus_allowed, Hold, <- inTable_allowed.
  by destruct (Status old).
Qed.

End ClassifierCases.

(** ** MonitorGas: ticks and runs *)

Section MonitorGasTicks.

Variable sendTransaction : string → bool * option string.

Implicit Types (st : MonitorState) (tx : Transaction).

(** The log of calls only grows. *)
Lemma MonitorGas_range_sent_grows gasPrice order st h :
  h ∈ sent st →
  h ∈ sent (stateOf (MonitorGas_range sendTransaction gasPrice order st)).
Proof.
  revert st. induction order as [| k rest IH]; intros st Hin; [done |].
  cbn [MonitorGas_range].
  destruct (MonitorGas_entry_cases sendTransaction gasPrice k st)
    as [[-> _] | [(-> & _) | (tx & st' & -> & _ & _ & _ & Hsent & _)]].
  - by apply IH.
  - done.
  - apply IH. rewrite Hsent. by apply list_elem_of_further.
Qed.

(** The loop keeps the key set, and does not write to the record of a key
    that is not in the log of calls when it ends. *)
Lemma MonitorGas_range_frame gasPrice order st :
  dom (storedTransactions (stateOf (MonitorGas_range sendTransaction gasPrice order st)))
  = dom (storedTransactions st)
  ∧ ∀ h, h ∉ sent (stateOf (MonitorGas_range sendTransaction gasPrice order st)) →
      storedTransactions (stateOf (MonitorGas_range sendTransaction gasPrice order st)) !! h
      = storedTransactions st !! h.
Proof.
  revert st. induction order as [| k rest IH]; intros st; [done |].
  cbn [MonitorGas_range].
  destruct (MonitorGas_entry_cases sendTransaction gasPrice k st)
    as [[-> _] | [(-> & _) | (tx & st' & -> & Hl & _ & _ & Hsent & Hst & _)]].
  - apply IH.
  - done.
  - destruct (IH st') as [Hdom Hframe]. split.
    + rewrite Hdom, Hst. apply dom_insert_lookup_L. eauto.
    + intros h Hh. rewrite Hframe by done. rewrite Hst.
      apply lookup_insert_ne. intros ->. apply Hh.
      apply MonitorGas_range_sent_grows. rewrite Hsent. apply list_elem_of_here.
Qed.

(** X10. A tick of the monitor neither inserts nor deletes a key, and the
    record of every key for which it has not called sendTransaction is the
    record it was. *)
Theorem MonitorGas_tick_frame fetched order st :
  dom (storedTransactions (stateOf (MonitorGas_tick sendTransaction fetched order st)))
  = dom (storedTransactions st)
  ∧ ∀ h, h ∉ sent (stateOf (MonitorGas_tick sendTransaction fetched order st)) →
      storedTransactions (stateOf (MonitorGas_tick sendTransaction fetched order st)) !! h
      = storedTransactions st !! h.
Proof.
  unfold MonitorGas_tick. destruct fetched as [gasPrice |]; [| done].
  apply MonitorGas_range_frame.
Qed.

(** A loop that meets no record that is STORED with a cap sum that reaches
    the gas price does nothing. *)
Lemma MonitorGas_range_none_eligible gasPrice order st :
  (∀ h tx, h ∈ order → storedTransactions st !! h = Some tx →
     eligible gasPrice tx = false) →
  MonitorGas_range sendTransaction gasPrice order st = TickDone st.
Proof.
  induction order as [| k rest IH]; intros Hnone; [done |].
  cbn [MonitorGas_range].
  destruct (MonitorGas_entry_cases sendTransaction gasPrice k st)
    as [[-> _] | [(_ & _ & tx & Hl & Hel) | (tx & st' & _ & Hl & Hel & _)]].
  - apply IH. intros h tx Hin. apply Hnone. by apply list_elem_of_further.
  - rewrite (Hnone k tx) in Hel by (done || apply list_elem_of_here). done.
  - rewrite (Hnone k tx) in Hel by (done || apply list_elem_of_here). done.
Qed.

(** With the mutex held, the loop changes nothing. *)
Lemma MonitorGas_range_held gasPrice order st :
  mutexHeld st = true →
  stateOf (MonitorGas_range sendTransaction gasPrice order st) = st.
Proof.
  intros Hheld. induction order as [| k rest IH]; [done |].
  cbn [MonitorGas_range].
  destruct (MonitorGas_entry_cases sendTransaction gasPrice k st)
    as [[-> _] | [(-> & _) | (tx & st' & _ & _ & _ & Hfree & _)]];
    [done | done | congruence].
Qed.

(** The property of a state that a run keeps: no key is twice in the log of
    calls, and while the mutex is free every key in the log has a record
    that is not STORED. *)
Lemma MonitorGas_range_sent_once gasPrice order st :
  NoDup (sent st) →
  (mutexHeld st = false →
   ∀ h, h ∈ sent st →
     ∃ tx, storedTransactions st !! h = Some tx ∧ Status tx ≠ STORED) →
  let st' := stateOf (MonitorGas_range sendTransaction gasPrice order st) in
  NoDup (sent st')
  ∧ (mutexHeld st' = false →
     ∀ h, h ∈ sent st' →
       ∃ tx, storedTransactions st' !! h = Some tx ∧ Status tx ≠ STORED).
Proof.
  revert st. induction order as [| k rest IH]; intros st Hnd Hdone; [done |].
  cbn [MonitorGas_range].
  destruct (MonitorGas_entry_cases sendTransaction gasPrice k st)
    as [[-> _] | [(-> & _) | (tx & st1 & -> & Hl & Hel & Hfree & Hsent & Hst & Hm)]].
  - by apply IH.
  - done.
  - assert (Status tx = STORED) as Hs.
    { unfold eligible in Hel. apply andb_true_iff in Hel as [Hs _].
      by apply bool_decide_eq_true in Hs. }
    apply IH.
    + rewrite Hsent. apply NoDup_cons. split; [| done].
      intros Hin. destruct (Hdone Hfree k Hin) as (tx' & Hl' & Hns). congruence.
    + rewrite Hm, Hsent, Hst. intros Hns%bool_decide_eq_false h Hin.
      destruct (decide (k = h)) as [<- | Hk].
      * rewrite lookup_insert_eq. eauto.
      * rewrite lookup_insert_ne by done.
        apply elem_of_cons in Hin as [-> | Hin]; [done |]. by apply Hdone.
Qed.

End MonitorGasTicks.

(** With the mutex held, a tick changes nothing. *)
Lemma MonitorGas_tick_held (tick : Tick) (st : MonitorState) :
  mutexHeld st = true →
  stateOf (MonitorGas_tick (tickSend tick) (tickFetched tick) (tickOrder tick) st) = st.
Proof.
  intros Hheld. unfold MonitorGas_tick.
  destruct (tickFetched tick); [| done]. by apply MonitorGas_range_held.
Qed.

(** X11. Once the mutex is held (the monitor has returned from a transport
    error without unlocking), no run of the monitor does anything any more:
    whatever the ticks, their gas prices, visiting orders and the answers of
    the node, the store, the mutex and the log of calls stay as they are. *)
Theorem MonitorGas_held_for_ever (ticks : list Tick) (st : MonitorState) :
  mutexHeld st = true →
  stateOf (MonitorGas ticks st) = st.
Proof.
  intros Hheld. induction ticks as [| tick rest IH]; [done |].
  cbn [MonitorGas].
  pose proof (MonitorGas_tick_held tick st Hheld) as Htick.
  destruct (MonitorGas_tick _ _ _ st) as [st' | st']; cbn [stateOf] in Htick; subst st'.
  - exact IH.
  - done.
Qed.

(** Nothing written is a write that keeps what is settled, and so is one
    such write after another. *)
Lemma settledKept_refl (store : gmap string Transaction) : settledKept store store.
Proof. intros h r Hl Hs. eauto. Qed.

Lemma settledKept_trans (s1 s2 s3 : gmap string Transaction) :
  settledKept s1 s2 → settledKept s2 s3 → settledKept s1 s3.
Proof.
  intros H12 H23 h r Hl Hs.
  destruct (H12 h r Hl Hs) as (r2 & Hl2 & Hs2). eauto.
Qed.

(** The two writers of the request handlers keep what is settled:
    CancelTransaction always, StoreTransaction for a transaction whose
    hash is not a key. *)
Lemma settledKept_CancelTransaction (hash : string) (store : gmap string Transaction) :
  settledKept store (CancelTransaction hash store).2.
Proof.
  intros h r Hl Hs. unfold CancelTransaction.
  destruct (decide (h = hash)) as [-> | Hne].
  - destruct (changeTransactionStatus_same hash CANCELED store r Hl)
      as (r' & Hl' & _ & _ & [-> | [Hc _]]); [eauto |].
    exists r'. split; [done |]. by rewrite Hc.
  - exists r. by rewrite changeTransactionStatus_other.
Qed.

Lemma settledKept_StoreTransaction (Sender : Z → EthTransaction → option Address)
    (tx : Transaction) (order : list string) (store : gmap string Transaction) :
  store !! Hash (Eth tx) = None →
  settledKept store (storeOf (StoreTransaction Sender tx order store)).
Proof.
  intros Hnew h r Hl Hs.
  assert (h ≠ Hash (Eth tx)) as Hne by congruence.
  pose proof (StoreTransaction_shapes Sender tx order store) as Hshape.
  destruct (StoreTransaction Sender tx order store) as [[e |] store' | store'];
    cbn [storeOf]; [subst; eauto | | subst; eauto].
  destruct Hshape as [-> | [(k & r0 & Hk & Hk0 & ->) | [-> | (k & r0 & _ & Hk & _ & ->)]]].
  - eauto.
  - destruct (decide (h = k)) as [-> | Hhk].
    + rewrite lookup_insert_eq. eauto.
    + rewrite lookup_insert_ne by done. eauto.
  - rewrite lookup_insert_ne by done. eauto.
  - rewrite lookup_insert_ne by done.
    destruct (decide (h = k)) as [-> | Hhk].
    + rewrite lookup_insert_eq. eauto.
    + rewrite lookup_insert_ne by done. eauto.
Qed.

(** X12. In a run of the monitor on the shared store, from a free mutex and
    whatever the ticks, the node is called at most once for a key, as long
    as the writes between the ticks leave every record that is not STORED
    in the store and not STORED (CancelTransaction does, and so does
    StoreTransaction of a transaction whose hash is not a key): no record
    is sent twice, and a call that failed with a transport error is never
    repeated. *)
Theorem MonitorGas_sends_once (run : list (gmap string Transaction * Tick))
    (store : gmap string Transaction) :
  settledKept_run run (monitorStart store) →
  NoDup (sent (stateOf (MonitorGas_shared run (monitorStart store)))).
Proof.
  enough (∀ st,
            NoDup (sent st) →
            (mutexHeld st = false →
             ∀ h, h ∈ sent st →
               ∃ tx, storedTransactions st !! h = Some tx ∧ Status tx ≠ STORED) →
            settledKept_run run st →
            NoDup (sent (stateOf (MonitorGas_shared run st)))) as Hrun.
  { apply Hrun; [apply NoDup_nil_2 |]. intros _ h Hin. by apply elem_of_nil in Hin. }
  induction run as [| [found tick] rest IH]; intros st Hnd Hdone Hrun; [done |].
  destruct Hrun as [Hkept Hrest].
  cbn [MonitorGas_shared].
  set (st1 := {| storedTransactions := found; mutexHeld := mutexHeld st; sent := sent st |})
    in *.
  assert (let st' := stateOf (MonitorGas_tick (tickSend tick) (tickFetched tick)
                                (tickOrder tick) st1) in
          NoDup (sent st')
          ∧ (mutexHeld st' = false →
             ∀ h, h ∈ sent st' →
               ∃ tx, storedTransactions st' !! h = Some tx ∧ Status tx ≠ STORED))
    as Hstep.
  { assert (mutexHeld st1 = false →
            ∀ h, h ∈ sent st1 →
              ∃ tx, storedTransactions st1 !! h = Some tx ∧ Status tx ≠ STORED) as Hdone1.
    { cbn. intros Hfree h Hin.
      destruct (Hdone Hfree h Hin) as (tx & Hl & Hs). by apply (Hkept h tx). }
    unfold MonitorGas_tick. destruct (tickFetched tick) as [gasPrice |]; [| done].
    by apply MonitorGas_range_sent_once. }
  destruct (MonitorGas_tick _ _ _ st1) as [st' | st']; cbn [stateOf] in *.
  - apply IH; [apply Hstep | apply Hstep | done].
  - apply Hstep.
Qed.

(** Without that condition a record is sent again.  At gas price 8 the
    monitor broadcasts txA and passes over txLow; StoreTransaction of txA,
    when its loop meets txLow before the key of txA, takes txA for the
    speed-up of txLow and writes it back as STORED; the next tick calls
    the node for it a second time. *)
Example MonitorGas_sends_again :
  let tick := {| tickFetched := fetchedPrice 8;
                 tickOrder := ["0xa1"; "0xa3"];
                 tickSend := sampleAccept |} in
  let st1 := stateOf (MonitorGas_shared [(storeALow, tick)] (monitorStart storeALow)) in
  let found := storeOf (StoreTransaction sampleSender txA ["0xa3"; "0xa1"]
                          (storedTransactions st1)) in
  sent st1 = ["0xa1"]
  ∧ storedTransactions st1 !! "0xa1" = Some (with_Status BROADCASTED txA)
  ∧ found !! "0xa1" = Some txA
  ∧ sent (stateOf (MonitorGas_shared [(storeALow, tick); (found, tick)]
                     (monitorStart storeALow)))
    = ["0xa1"; "0xa1"].
Proof. repeat split; closed_by_computation. Qed.

(** X13. When the node answers no call of a tick with a transport error,
    the tick (from a free mutex, over all keys) runs to its end, and a
    further tick on the store it left, at a gas price that [int64] converts
    to the same or a higher value, then calls the node for nothing and
    changes nothing, whatever its visiting order and the answers of the
    node would be.  The comparison is between the converted prices: a
    higher price that the conversion takes out of range is not covered. *)
Theorem MonitorGas_tick_settles
    (sendTransaction sendTransaction2 : string → bool * option string)
    (gasPrice gasPrice2 : float64) (order order2 : list string) (st : MonitorState) :
  rangeOrder (storedTransactions st) order →
  mutexHeld st = false →
  sent st = [] →
  (∀ h tx, storedTransactions st !! h = Some tx → eligible gasPrice tx = true →
     statusAfterSend (sendTransaction (RawHex tx)) ≠ STORED) →
  int64_of_float64 gasPrice <= int64_of_float64 gasPrice2 →
  ∃ st', MonitorGas_tick sendTransaction (Some gasPrice) order st = TickDone st'
         ∧ MonitorGas_tick sendTransaction2 (Some gasPrice2) order2 st' = TickDone st'.
Proof.
  intros Hord Hfree Hempty Hans Hle. cbn [MonitorGas_tick].
  pose proof (rangeOrder_NoDup _ _ Hord) as Hnd.
  destruct (MonitorGas_range_eligible sendTransaction gasPrice order st Hnd Hfree)
    as (st' & Hrun & Hfree' & Hlog).
  { intros h tx _. apply Hans. }
  exists st'. split; [done |].
  pose proof (MonitorGas_range_sent sendTransaction gasPrice order st) as Hsent.
  pose proof (MonitorGas_range_frame sendTransaction gasPrice order st) as [Hdom Hframe].
  rewrite Hrun in Hsent, Hdom, Hframe. cbn [stateOf] in *.
  apply MonitorGas_range_none_eligible.
  intros h tx' _ Hl'.
  destruct (decide (h ∈ sent st')) as [Hin | Hout].
  - destruct (Hsent h Hnd Hin) as [Hin0 | (_ & tx & Hl & Hel & Hfin)].
    { rewrite Hempty in Hin0. by apply elem_of_nil in Hin0. }
    rewrite Hfin in Hl'. injection Hl' as <-.
    unfold eligible. cbn [Status with_Status].
    rewrite bool_decide_eq_false_2; [done |]. by apply Hans with h.
  - rewrite Hframe in Hl' by done.
    destruct (eligible gasPrice tx') eqn:Hel.
    { exfalso. apply Hout. apply Hlog. right. split; [| eauto].
      apply (rangeOrder_elem_of _ _ _ Hord). eauto. }
    unfold eligible in *.
    destruct (bool_decide (Status tx' = STORED)); [| done]. cbn [andb] in *.
    apply bool_decide_eq_false in Hel. apply bool_decide_eq_false_2. lia.
Qed.

(** ** The upstream client *)

Lemma wrap64_idem_small (z : Z) : 0 <= z < 2 ^ 63 → wrap64 z = z.
Proof. intros Hz. apply wrap64_small. lia. Qed.

(** The bytes that are hexadecimal digits are digits below 16 for
    ParseUint, with the value that [hexValue] gives them. *)
Lemma hexValue_loop_cons c rest n v :
  hexValue_loop (c :: rest) n = Some v →
  ∃ d, 0 <= d < 16 ∧ digitValue c = Some d
       ∧ hexValue_loop rest (n * 16 + d) = Some v.
Proof.
  cbn [hexValue_loop]. unfold digitValue, strconv_lower.
  destruct ((48 <=? c) && (c <=? 57)) eqn:Hdec.
  { intros Hv. exists (c - 48). split; [lia | done]. }
  destruct ((97 <=? c) && (c <=? 102)) eqn:Hlow.
  { intros Hv. exists (c - 87).
    assert (c = 97 ∨ c = 98 ∨ c = 99 ∨ c = 100 ∨ c = 101 ∨ c = 102) as Hc by lia.
    split; [lia |]. split; [| done].
    destruct Hc as [-> | [-> | [-> | [-> | [-> | ->]]]]]; reflexivity. }
  destruct ((65 <=? c) && (c <=? 70)) eqn:Hup; [| discriminate].
  intros Hv. exists (c - 55).
  assert (c = 65 ∨ c = 66 ∨ c = 67 ∨ c = 68 ∨ c = 69 ∨ c = 70) as Hc by lia.
  split; [lia |]. split; [| done].
  destruct Hc as [-> | [-> | [-> | [-> | [-> | ->]]]]]; reflexivity.
Qed.

Lemma hexValue_loop_ge bytes n v :
  0 <= n → hexValue_loop bytes n = Some v → n <= v.
Proof.
  revert n. induction bytes as [| c rest IH]; intros n Hn Hv.
  { injection Hv as <-. lia. }
  apply hexValue_loop_cons in Hv as (d & Hd & _ & Hv).
  apply IH in Hv; lia.
Qed.

(** ParseUint reads a string of hexadecimal digits as its value, and
    reports a range error when the value does not fit 64 bits. *)
Lemma ParseUint_loop_hex bytes n v :
  0 <= n < 2 ^ 64 →
  hexValue_loop bytes n = Some v →
  ParseUint_loop bytes n = if v <? 2 ^ 64 then inr v else inl ErrRange.
Proof.
  revert n. induction bytes as [| c rest IH]; intros n Hn Hv.
  { injection Hv as <-. cbn. destruct (Z.ltb_spec n (2 ^ 64)); [done | lia]. }
  pose proof (hexValue_loop_ge _ n _ (proj1 Hn) Hv) as Hge.
  apply hexValue_loop_cons in Hv as (d & Hd & Hdig & Hv).
  cbn [ParseUint_loop]. rewrite Hdig.
  destruct (Z.geb_spec d 16); [lia |].
  assert (0 <= n * 16 + d) as Hn' by lia.
  pose proof (hexValue_loop_ge _ _ _ Hn' Hv) as Hge'.
  destruct (Z.geb_spec n (2 ^ 60)) as [Hbig | Hsmall].
  { destruct (Z.ltb_spec v (2 ^ 64)); [lia | done]. }
  rewrite (Z.mod_small (n * 16)) by lia.
  rewrite (Z.mod_small (n * 16 + d)) by lia.
  destruct (Z.ltb_spec (n * 16 + d) (n * 16)); [lia |].
  destruct (Z.gtb_spec (n * 16 + d) (2 ^ 64 - 1)); [lia |].
  cbn [orb]. apply IH; [lia | done].
Qed.

(** ParseInt on a string of hexadecimal digits without a sign: the value
    when it is below 2^63, a range error otherwise, a syntax error on the
    empty string. *)
Lemma ParseInt_hex (s : string) (v : Z) :
  s ≠ "" → hexValue s = Some v →
  ParseInt s = if v <? 2 ^ 63 then inr v else inl ErrRange.
Proof.
  destruct s as [| c rest]; [done |]. intros _ Hv.
  unfold hexValue in Hv. cbn [bytesOf] in Hv.
  assert (0 <= 0) as H0 by lia.
  pose proof (hexValue_loop_ge _ _ _ H0 Hv) as Hge.
  pose proof Hv as Hv'.
  apply hexValue_loop_cons in Hv' as (d & Hd & Hdig & _).
  unfold ParseInt.
  assert (bool_decide (Z.of_N (Ascii.N_of_ascii c) = 45) = false) as ->.
  { apply bool_decide_eq_false_2. intros Heq. rewrite Heq in Hdig. discriminate. }
  assert (bool_decide (Z.of_N (Ascii.N_of_ascii c) = 43) = false) as ->.
  { apply bool_decide_eq_false_2. intros Heq. rewrite Heq in Hdig. discriminate. }
  cbn [orb andb negb]. unfold ParseUint. cbn [bytesOf].
  rewrite (ParseUint_loop_hex _ 0 v) by (done || lia).
  destruct (Z.ltb_spec v (2 ^ 64)) as [H64 | H64].
  - destruct (Z.geb_spec v (2 ^ 63)) as [H63 | H63].
    + destruct (Z.ltb_spec v (2 ^ 63)); [lia | done].
    + destruct (Z.ltb_spec v (2 ^ 63)); [| lia].
      by rewrite wrap64_idem_small by lia.
  - destruct (Z.ltb_spec v (2 ^ 63)); [lia | done].
Qed.

Section UpstreamClientFacts.

Variable Do : string → list (string * list string) → HTTPResult.
Variable Marshal : JSONRPCRequest → string.
Variable Decode : string → string + JSONRPCResponse.
Variable Quote : string → string.

(** doRequest returns a response exactly when the node answered with
    status 200 and a body that decodes. *)
Lemma doRequest_inr reqBody resp :
  doRequest Do Decode reqBody = inr resp ↔ answered Do Decode reqBody resp.
Proof.
  unfold doRequest, SendRequest, answered. split.
  - destruct (Do reqBody jsonHeader) as [err | code header body]; [done |].
    destruct (decide (code ≠ 200)) as [Hne | Heq]; [done |].
    apply dec_stable in Heq as ->. eauto.
  - intros (header & body & -> & Hdec).
    by rewrite decide_False by (by intros ?).
Qed.

(** X14. What the two results of sendTransaction say about the answer of
    the node.  The flag is never raised without an error; it is raised
    exactly when the node answered with status 200 and a decodable body
    that carries an error object, whose message is the error; no error is
    returned exactly when such an answer carries no error object; and an
    error without the flag means that there was no such answer. *)
Theorem sendTransaction_answer (hex : string) :
  match sendTransaction Do Marshal Decode hex with
  | (true, None) => False
  | (true, Some msg) =>
      ∃ resp e, answered Do Decode (Marshal (sendRawTransactionRequest hex)) resp
                ∧ Response_Error resp = Some e ∧ msg = Message e
  | (false, None) =>
      ∃ resp, answered Do Decode (Marshal (sendRawTransactionRequest hex)) resp
              ∧ Response_Error resp = None
  | (false, Some msg) =>
      ∀ resp, ¬ answered Do Decode (Marshal (sendRawTransactionRequest hex)) resp
  end.
Proof.
  unfold sendTransaction.
  destruct (doRequest Do Decode (Marshal (sendRawTransactionRequest hex)))
    as [err | resp] eqn:Hreq.
  - intros resp Hresp%doRequest_inr. congruence.
  - apply doRequest_inr in Hreq.
    destruct (Response_Error resp) as [e |] eqn:He; eauto.
Qed.

(** X15. getGasPrice panics exactly when the node answered with status 200
    and a decodable body without an error object whose result is not a
    string of at least two bytes (a missing result, a number, the string
    "0"). *)
Theorem getGasPrice_panics_iff :
  getGasPrice Do Marshal Decode Quote = GasPricePanic
  ↔ ∃ resp, answered Do Decode (Marshal gasPriceRequest) resp
            ∧ Response_Error resp = None
            ∧ ∀ s, Response_Result resp = JString s → (String.length s < 2)%nat.
Proof.
  unfold getGasPrice. split.
  - destruct (doRequest Do Decode (Marshal gasPriceRequest)) as [err | resp] eqn:Hreq;
      [done |].
    apply doRequest_inr in Hreq.
    destruct (Response_Error resp) as [e |] eqn:He; [done |].
    destruct (Response_Result resp) as [| b | n | s | l | l] eqn:Hres.
    4:{ unfold sliceFrom.
        destruct (decide (2 ≤ String.length s)%nat) as [Hlen | Hlen].
        - by destruct (ParseInt _).
        - intros _. exists resp. split; [done |]. split; [done |].
          intros s' Hs. rewrite Hres in Hs. injection Hs as <-. lia. }
    all: intros _; exists resp; split; [done |]; split; [done |];
      intros s' Hs; rewrite Hres in Hs; discriminate Hs.
  - intros (resp & Hresp%doRequest_inr & He & Hres). rewrite Hresp, He.
    destruct (Response_Result resp) as [| b | n | s | l | l]; try done.
    unfold sliceFrom. specialize (Hres s eq_refl).
    destruct (decide (2 ≤ String.length s)%nat); [lia | done].
Qed.

(** X16. getGasPrice on a result of two bytes followed by hexadecimal
    digits: the two bytes are cut off without being looked at, and the
    digits are read as a number; below 2^63 the gas price is that number
    converted to [float64] (the nearest binary64 number: the number itself
    below 2^53, as the conversion back to [int64] shows, and rounded
    above), and otherwise the call fails with the range error of
    ParseInt. *)
Theorem getGasPrice_hex (resp : JSONRPCResponse) (c1 c2 : Ascii.ascii)
    (digits : string) (v : Z) :
  answered Do Decode (Marshal gasPriceRequest) resp →
  Response_Error resp = None →
  Response_Result resp = JString (String c1 (String c2 digits)) →
  digits ≠ "" →
  hexValue digits = Some v →
  getGasPrice Do Marshal Decode Quote =
    (if v <? 2 ^ 63 then GasPrice (float64_of_int64 v)
     else GasPriceError (NumError_Error Quote digits ErrRange))
  ∧ (v < 2 ^ 53 → int64_of_float64 (float64_of_int64 v) = v).
Proof.
  intros Hresp%doRequest_inr He Hres Hne Hv.
  split.
  2:{ intros Hsmall. apply int64_of_float64_of_int64.
      assert (0 <= v) by (by apply (hexValue_loop_ge (bytesOf digits) 0 v)).
      lia. }
  unfold getGasPrice. rewrite Hresp, He, Hres.
  unfold sliceFrom. cbn [String.length].
  rewrite decide_True by lia.
  replace (String.substring 2 (S (S (String.length digits)) - 2)
             (String c1 (String c2 digits))) with digits.
  - rewrite (ParseInt_hex digits v) by done. by destruct (v <? 2 ^ 63).
  - cbn [String.substring]. replace (S (S (String.length digits)) - 2)%nat
      with (String.length digits) by lia.
    clear. induction digits as [| c rest IH]; [done |].
    cbn [String.length String.substring]. by rewrite <- IH.
Qed.

End UpstreamClientFacts.

(** X16 on the sample node. *)
Lemma getGasPrice_hex_witness :
  getGasPrice sampleDo sampleMarshal sampleDecode sampleQuote =
    (if 100000000 <? 2 ^ 63 then GasPrice (float64_of_int64 100000000)
     else GasPriceError (NumError_Error sampleQuote "5f5e100" ErrRange))
  ∧ (100000000 < 2 ^ 53 →
     int64_of_float64 (float64_of_int64 100000000) = 100000000).
Proof.
  apply (getGasPrice_hex sampleDo sampleMarshal sampleDecode sampleQuote
           {| Response_Jsonrpc := "2.0"; Response_ID := JNumber 1;
              Response_Result := JString "0x5f5e100"; Response_Error := None |}
           (Ascii.ascii_of_nat 48) (Ascii.ascii_of_nat 120) "5f5e100" 100000000).
  - exists [], "price"%string. split; reflexivity.
  - reflexivity.
  - reflexivity.
  - discriminate.
  - reflexivity.
Defined.

(** ** The server *)

Lemma sliceTo_2 (a b : Ascii.ascii) (rest : string) :
  sliceTo (String a (String b rest)) 2 = Some (String a (String b EmptyString)).
Proof.
  unfold sliceTo. cbn [String.length]. rewrite decide_True by lia.
  by destruct rest.
Qed.

Lemma substring_all (s : string) : String.substring 0 (String.length s) s = s.
Proof. induction s as [| c rest IH]; [done |]. cbn. by rewrite IH. Qed.

Lemma sliceFrom_2 (a b : Ascii.ascii) (rest : string) :
  sliceFrom (String a (String b rest)) 2 = Some rest.
Proof.
  unfold sliceFrom. cbn [String.length]. rewrite decide_True by lia.
  cbn [String.substring].
  replace (S (S (String.length rest)) - 2)%nat with (String.length rest) by lia.
  by rewrite substring_all.
Qed.

Lemma slice_short (s : string) :
  (String.length s < 2)%nat → sliceTo s 2 = None ∧ sliceFrom s 2 = None.
Proof.
  intros Hlen. unfold sliceTo, sliceFrom.
  by rewrite !decide_False by lia.
Qed.

Lemma append_0x (digits : string) :
  "0x" +:+ digits
  = String (Ascii.ascii_of_nat 48) (String (Ascii.ascii_of_nat 120) digits).
Proof. reflexivity. Qed.

Lemma length_bytesOf (s : string) : length (bytesOf s) = String.length s.
Proof. induction s as [| c rest IH]; [done |]. cbn. by rewrite IH. Qed.

(** hex.Decode succeeds exactly on an even number of hexadecimal digits. *)
Lemma hex_Decode_inr (src : list Z) :
  (∃ bytes, hex_Decode src = inr bytes)
  ↔ Nat.Even (length src) ∧ Forall (λ c, is_Some (fromHexChar c)) src.
Proof.
  remember (length src) as n eqn:Hn.
  revert src Hn. induction n as [n IH] using lt_wf_ind. intros src Hn.
  destruct src as [| p [| q rest]]; cbn [length] in Hn; subst n.
  - cbn. split; [intros _ | eauto]. split; [by exists 0%nat | constructor].
  - cbn [hex_Decode]. split.
    + destruct (fromHexChar p); by intros [bytes ?].
    + intros [[k Hk] _]. lia.
  - cbn [hex_Decode].
    assert (length rest < S (S (length rest)))%nat as Hlt by lia.
    specialize (IH (length rest) Hlt rest eq_refl).
    split.
    + destruct (fromHexChar p) as [a |] eqn:Hp; [| by intros [? ?]].
      destruct (fromHexChar q) as [b |] eqn:Hq; [| by intros [? ?]].
      destruct (hex_Decode rest) as [e | bytes] eqn:Hrest; [by intros [? ?] |].
      intros _. destruct IH as [[[k Hk] Hall] _]; [eauto |].
      split; [exists (S k); lia |].
      repeat constructor; [by rewrite Hp | by rewrite Hq | done].
    + intros [[k Hk] Hall].
      apply Forall_cons in Hall as [[a Hp] Hall].
      apply Forall_cons in Hall as [[b Hq] Hall].
      destruct IH as [_ [bytes Hrest]].
      { split; [exists (k - 1)%nat; lia | done]. }
      rewrite Hp, Hq, Hrest. eauto.
Qed.

Section ServerFacts.

Variable formatU : Z → string.
Variable Sender : Z → EthTransaction → option Address.
Variable Do : string → list (string * list string) → HTTPResult.
Variable DecodeRequest : string → JSONRPCRequest * option string.
Variable UnmarshalBinary : list Z → option EthTransaction.

(** The length test comes before the two slice expressions. *)
Lemma isValidTxHash_no_panic (param : JSONValue) :
  isValidTxHash formatU param ≠ SlicePanic.
Proof.
  destruct param as [| jb | jn | s | jl | jo]; try done.
  cbn [isValidTxHash].
  destruct (decide (String.length s ≠ 66%nat)) as [Hlen | Hlen]; [done |].
  apply dec_stable in Hlen.
  destruct s as [| a [| b rest]]; [done | done |].
  rewrite sliceTo_2, sliceFrom_2.
  destruct (decide (String a (String b EmptyString) ≠ "0x")); [done |].
  by destruct (hex_DecodeString rest).
Qed.

Lemma isValidTxHash_Nil_string (param : JSONValue) :
  isValidTxHash formatU param = Nil → ∃ hashStr, param = JString hashStr.
Proof. destruct param as [| jb | jn | s | jl | jo]; try done. eauto. Qed.

(** X17. isValidTxHash never panics, whatever the parameter, and returns
    nil exactly on a string of 66 bytes that starts with "0x" and goes on
    with 64 hexadecimal digits (of either case). *)
Theorem isValidTxHash_accepts (param : JSONValue) :
  isValidTxHash formatU param ≠ SlicePanic
  ∧ (isValidTxHash formatU param = Nil
     ↔ ∃ digits, param = JString ("0x" +:+ digits)
                 ∧ String.length digits = 64%nat ∧ allHex digits).
Proof.
  destruct param as [| jb | jn | s | jl | jo];
    try (split; [done |]; split; [done | by intros (? & ? & _)]).
  cbn [isValidTxHash].
  destruct (decide (String.length s ≠ 66%nat)) as [Hlen | Hlen].
  { split; [done |]. split; [done |].
    intros (digits & [= ->] & Hd & _). rewrite append_0x in Hlen.
    cbn [String.length] in Hlen. lia. }
  apply dec_stable in Hlen.
  destruct s as [| a [| b rest]]; [done | done |].
  rewrite sliceTo_2, sliceFrom_2.
  destruct (decide (String a (String b EmptyString) ≠ "0x")) as [Hpre | Hpre].
  { split; [done |]. split; [done |].
    intros (digits & Heq & _). rewrite append_0x in Heq.
    injection Heq as -> -> ->. done. }
  apply dec_stable in Hpre. injection Hpre as -> ->.
  assert (String.length rest = 64%nat) as Hrest by (cbn in Hlen; lia).
  unfold hex_DecodeString.
  pose proof (hex_Decode_inr (bytesOf rest)) as Hdec.
  rewrite length_bytesOf, Hrest in Hdec.
  destruct (hex_Decode (bytesOf rest)) as [e | bytes] eqn:Hrun.
  - split; [done |]. split; [done |].
    intros (digits & Heq & _ & Hall). rewrite append_0x in Heq.
    injection Heq as <-.
    destruct Hdec as [_ [bytes ?]]; [| done].
    split; [by exists 32%nat | done].
  - split; [done |]. split; [| done].
    intros _. exists rest. split; [by rewrite append_0x |]. split; [done |].
    apply Hdec. eauto.
Qed.

(** handleRequest panics in the case "eth_sendRawTransaction" only. *)
Lemma handle_cancel_transaction_replies (req : JSONRPCRequest)
    (store : gmap string Transaction) :
  ∃ reply store', handle_cancel_transaction formatU req store = Replied reply store'.
Proof.
  unfold handle_cancel_transaction.
  destruct (Request_Params req) as [| param rest]; [eauto |].
  pose proof (isValidTxHash_no_panic param) as Hnp.
  pose proof (isValidTxHash_Nil_string param) as Hnil.
  destruct (isValidTxHash formatU param) eqn:Hv; [| eauto | done].
  destruct Hnil as [hashStr ->]; [done |].
  destruct (CancelTransaction _ store) as [[err |] store']; eauto.
Qed.

(** X18. The requests on which handleRequest panics are requests of the
    method eth_sendRawTransaction: for every other method, also
    cancel_transaction with any parameters, and for a body that cannot be
    read or decoded, it returns with a reply. *)
Theorem handleRequest_panics_only_in_sendRawTransaction
    (body : option string) (header : list (string * list string))
    (order : list string) (store store' : gmap string Transaction) :
  handleRequest formatU Sender Do DecodeRequest UnmarshalBinary body header order store
    = Unrecovered store' →
  ∃ bodyBytes req, body = Some bodyBytes
                   ∧ DecodeRequest bodyBytes = (req, None)
                   ∧ Request_Method req = "eth_sendRawTransaction".
Proof.
  unfold handleRequest.
  destruct body as [bodyBytes |]; [| done].
  destruct (DecodeRequest bodyBytes) as [req [err |]] eqn:Hdec; [done |].
  destruct (decide (Request_Method req = "eth_sendRawTransaction")) as [Hm | Hm];
    [eauto |].
  destruct (decide (Request_Method req = "cancel_transaction")); [| done].
  destruct (handle_cancel_transaction_replies req store) as (reply & s' & ->). done.
Qed.

(** X19. Whatever the request, the handler that StartServer registers
    replies, and a reply that is not a JSON-RPC response without an error
    object comes with the store as it was: a request that is answered with
    an error, passed on to the node, or that made the handler panic, has
    changed no record. *)
Theorem ServeHTTP_error_keeps_store
    (body : option string) (header : list (string * list string))
    (order : list string) (store : gmap string Transaction) :
  match ServeHTTP formatU Sender Do DecodeRequest UnmarshalBinary body header order store with
  | Replied (JSONReply res) store' => is_Some (Response_Error res) → store' = store
  | Replied _ store' => store' = store
  | Unrecovered _ => False
  end.
Proof.
  unfold ServeHTTP, handleRequest.
  destruct body as [bodyBytes |]; [| done].
  destruct (DecodeRequest bodyBytes) as [req [err |]]; [done |].
  destruct (decide (Request_Method req = "eth_sendRawTransaction")).
  - unfold handle_sendRawTransaction.
    destruct (Request_Params req) as [| param rest]; [done |].
    destruct (isValidHexRawTx param); [| done | done].
    destruct param as [| jb | jn | rawHex | jl | jo]; try done.
    destruct (sliceFrom rawHex 2) as [digits |]; [| done].
    destruct (hex_DecodeString digits) as [herr | bytesTx]; [done |].
    destruct (UnmarshalBinary bytesTx) as [eth |]; [| done].
    pose proof (StoreTransaction_shapes Sender
                  {| Eth := eth; Status := STORED; RawHex := rawHex |} order store)
      as Hshape.
    destruct (StoreTransaction _ _ _ _) as [[err |] store' | store']; cbn.
    + done.
    + by intros [? [=]].
    + done.
  - destruct (decide (Request_Method req = "cancel_transaction")).
    + unfold handle_cancel_transaction.
      destruct (Request_Params req) as [| param rest]; [done |].
      destruct (isValidTxHash formatU param); [| done | done].
      destruct param as [| jb | jn | hash | jl | jo]; try done.
      destruct (CancelTransaction hash store) as [[err |] store'] eqn:Hc; cbn.
      * intros _. by eapply changeTransactionStatus_error.
      * by intros [? [=]].
    + cbn. unfold proxyToRPCNode. by destruct (SendRequest Do bodyBytes header).
Qed.

(** X20. An eth_sendRawTransaction whose first parameter is a string of
    fewer than two bytes is answered by the recovery of the panic of
    isValidHexRawTx: the error -32000 "server error" with a null id,
    whatever the id of the request, and not the error -32602 "invalid
    params" of the other malformed parameters; the store is as it was. *)
Theorem ServeHTTP_short_raw_transaction
    (bodyBytes : string) (req : JSONRPCRequest) (rawTx : string) (rest : list JSONValue)
    (header : list (string * list string)) (order : list string)
    (store : gmap string Transaction) :
  DecodeRequest bodyBytes = (req, None) →
  Request_Method req = "eth_sendRawTransaction" →
  Request_Params req = JString rawTx :: rest →
  (String.length rawTx < 2)%nat →
  ServeHTTP formatU Sender Do DecodeRequest UnmarshalBinary
    (Some bodyBytes) header order store
  = Replied (writeJSONRPCError JNull (-32000) "server error") store.
Proof.
  intros Hdec Hm Hp Hlen.
  unfold ServeHTTP, handleRequest. rewrite Hdec, decide_True by done.
  unfold handle_sendRawTransaction. rewrite Hp. cbn [isValidHexRawTx].
  destruct (slice_short rawTx Hlen) as [-> _]. done.
Qed.


End ServerFacts.


(** X20 on a request with the empty string as its parameter. *)
Lemma ServeHTTP_short_raw_transaction_witness :
  ServeHTTP sampleFormatU sampleSender sampleDo sampleDecodeRequest sampleUnmarshalBinary
    (Some "eth_sendRawTransaction ") [] ["0xa1"] storeA
  = Replied (writeJSONRPCError JNull (-32000) "server error") storeA.
Proof.
  apply (ServeHTTP_short_raw_transaction sampleFormatU sampleSender sampleDo
           sampleDecodeRequest sampleUnmarshalBinary
           "eth_sendRawTransaction "
           {| Request_Jsonrpc := "2.0"; Request_Method := "eth_sendRawTransaction";
              Request_Params := [JString ""]; Request_ID := JNumber 7 |}
           "" []).
  - reflexivity.
  - reflexivity.
  - reflexivity.
  - cbn. lia.
Defined.

(** X18 on the same request. *)
Lemma handleRequest_panics_only_in_sendRawTransaction_witness :
  handleRequest sampleFormatU sampleSender sampleDo sampleDecodeRequest
    sampleUnmarshalBinary (Some "eth_sendRawTransaction ") [] ["0xa1"] storeA
  = Unrecovered storeA
  ∧ ∃ bodyBytes req, Some "eth_sendRawTransaction " = Some bodyBytes
                     ∧ sampleDecodeRequest bodyBytes = (req, None)
                     ∧ Request_Method req = "eth_sendRawTransaction".
Proof.
  split; [reflexivity |].
  apply (handleRequest_panics_only_in_sendRawTransaction sampleFormatU sampleSender
           sampleDo sampleDecodeRequest sampleUnmarshalBinary
           (Some "eth_sendRawTransaction ") [] ["0xa1"] storeA storeA).
  reflexivity.
Defined.

(** ** The configuration *)

Lemma Getenv_insert_empty (env : gmap string string) (k key : string) :
  Getenv (<[k := ""]> env) key = Getenv (delete k env) key.
Proof.
  unfold Getenv. destruct (decide (k = key)) as [-> | Hne].
  - by rewrite lookup_insert_eq, lookup_delete_eq.
  - by rewrite lookup_insert_ne, lookup_delete_ne.
Qed.

(** X22. LoadConfig does not tell a variable that is set to the empty
    string from one that is not set: with either environment it returns
    the same error or loads the same configuration.  So NETWORK= is a
    missing network, and HOST= listens on localhost. *)
Theorem LoadConfig_empty_is_unset (env : gmap string string) (k : string) (cfg : Config) :
  LoadConfig (<[k := ""]> env) cfg = LoadConfig (delete k env) cfg.
Proof. unfold LoadConfig. by rewrite !Getenv_insert_empty. Qed.

(** X23. LoadConfig fails exactly when NETWORK or INFURA_PROJECT_ID is
    unset or empty, and then leaves the loaded configuration as it was;
    when it succeeds, what it loads does not depend on the configuration
    loaded before, the URL is made of the two variables, and the address
    has the form host:port. *)
Theorem LoadConfig_required (env : gmap string string) (cfg : Config) :
  (is_Some (LoadConfig env cfg).1
   ↔ Getenv env "NETWORK" = "" ∨ Getenv env "INFURA_PROJECT_ID" = "")
  ∧ (is_Some (LoadConfig env cfg).1 → (LoadConfig env cfg).2 = cfg)
  ∧ ((LoadConfig env cfg).1 = None →
     (∀ cfg', LoadConfig env cfg' = LoadConfig env cfg)
     ∧ url (LoadConfig env cfg).2 =
         "https://" +:+ Getenv env "NETWORK" +:+ ".infura.io/v3/"
         +:+ Getenv env "INFURA_PROJECT_ID"
     ∧ ∃ host port, host ≠ "" ∧ port ≠ ""
                    ∧ addr (LoadConfig env cfg).2 = host +:+ ":" +:+ port).
Proof.
  unfold LoadConfig.
  destruct (decide (Getenv env "NETWORK" = "")) as [Hn | Hn].
  { rewrite (bool_decide_eq_true_2 _ Hn). cbn.
    split; [split; eauto |]. split; [done | discriminate]. }
  rewrite (bool_decide_eq_false_2 _ Hn).
  destruct (decide (Getenv env "INFURA_PROJECT_ID" = "")) as [Hk | Hk].
  { rewrite (bool_decide_eq_true_2 _ Hk). cbn.
    split; [split; eauto |]. split; [done | discriminate]. }
  rewrite (bool_decide_eq_false_2 _ Hk). cbn [orb fst snd].
  split; [split; [by intros [? ?] | by intros [? | ?]] |].
  split; [by intros [? ?] |].
  intros _. split; [done |]. split; [done |]. cbn [addr].
  destruct (decide (Getenv env "HOST" = "")), (decide (Getenv env "PORT" = ""));
    eexists _, _; (split; [| split; [| reflexivity]]); done.
Qed.

Example LoadConfig_defaults :
  LoadConfig sampleEnv {| network := ""; infuraKey := ""; url := ""; addr := "";
                          logLevel := "" |}
  = (None, {| network := "test_network"; infuraKey := "test_project_id";
              url := "https://test_network.infura.io/v3/test_project_id";
              addr := "localhost:8080"; logLevel := "INFO" |}).
Proof. vm_compute. reflexivity. Qed.

(** ** The monitor over the upstream client *)

Section MonitorOverClient.

Variable Do : string → list (string * list string) → HTTPResult.
Variable Marshal : JSONRPCRequest → string.
Variable Decode : string → string + JSONRPCResponse.




End MonitorOverClient.

(** ** The further properties on the samples *)

(** X2 on txA, cancelled, sped up, and then asked to be STORED again. *)
Lemma changeTransactionStatus_calls_monotone_witness :
  storeA !! "0xa1" = Some txA
  ∧ ∃ r', changeTransactionStatus_calls
            [("0xa1", CANCELED); ("0xa1", SPEDUP); ("0xa1", STORED)] storeA !! "0xa1"
          = Some r'
          ∧ Eth r' = Eth txA ∧ RawHex r' = RawHex txA
          ∧ (statusRank (Status r') ≤ statusRank (Status txA))%nat
          ∧ (statusRank (Status r') = statusRank (Status txA) → r' = txA).
Proof.
  split; [reflexivity |].
  apply (changeTransactionStatus_calls_monotone
           [("0xa1", CANCELED); ("0xa1", SPEDUP); ("0xa1", STORED)] storeA "0xa1" txA).
  reflexivity.
Defined.

Lemma ingested_storeAA : ingested sampleSender anyTransaction storeAA.
Proof.
  replace storeAA
    with (storeOf (StoreTransaction sampleSender txA' ["0xa1"]
            (storeOf (StoreTransaction sampleSender txA [] ∅))))
    by closed_by_computation.
  repeat (apply ingested_call; [| closed_by_computation | done]).
  apply ingested_empty.
Defined.

(** X6 on the store that holds txA and txA'. *)
Lemma ingested_hash_is_key_witness :
  Hash (Eth txA') = "0xa2"
  ∧ (Status txA' = STORED ∨ Status txA' = CANCELED ∨ Status txA' = SPEDUP).
Proof.
  apply (ingested_hash_is_key sampleSender storeAA "0xa2" txA').
  - exact ingested_storeAA.
  - closed_by_computation.
Defined.

(** X7 on txA', whose cap sum equals the one of the stored txA. *)
Lemma StoreTransaction_no_replacement_witness :
  gasCapOf (Eth txA') = gasCapOf (Eth txA)
  ∧ ∃ store',
      StoreTransaction sampleSender txA' ["0xa1"] storeA = Returned None store'
      ∧ (∃ new, store' !! Hash (Eth txA') = Some new
                ∧ Status new = STORED
                ∧ Eth new = Eth txA' ∧ RawHex new = RawHex txA')
      ∧ ∀ h, h ≠ Hash (Eth txA') → store' !! h = storeA !! h.
Proof.
  split; [reflexivity |].
  apply (StoreTransaction_no_replacement sampleSender txA' ["0xa1"] storeA).
  - closed_by_computation.
  - intros h r [-> ->]%storeA_lookup_inv _ _.
    split; [done |]. split; [done |]. by vm_compute.
Defined.

(** X8 on the cancel transaction txCancel after txA has been broadcast:
    nil is returned, nothing is stored and nothing is cancelled. *)
Lemma StoreTransaction_cancel_never_stored_witness :
  (StoreTransaction sampleSender txCancel ["0xa1"] storeABroadcast = Panicked storeABroadcast
   ∨ ∃ store', StoreTransaction sampleSender txCancel ["0xa1"] storeABroadcast
               = Returned None store')
  ∧ storeOf (StoreTransaction sampleSender txCancel ["0xa1"] storeABroadcast)
      !! Hash (Eth txCancel) = None.
Proof.
  apply (StoreTransaction_cancel_never_stored sampleSender txCancel ["0xa1"]
           storeABroadcast 7 "0xa1" (with_Status BROADCASTED txA));
    try closed_by_computation.
  done.
Defined.

Lemma storeACanceled_lookup_inv (h : string) (r : Transaction) :
  storeACanceled !! h = Some r → h = "0xa1" ∧ r = with_Status CANCELED txA.
Proof. unfold storeACanceled. by intros [-> ->]%lookup_singleton_Some. Qed.

(** X9 on the speed-up txFast after txA has been cancelled: txA is SPEDUP
    and txFast is stored. *)
Lemma StoreTransaction_speed_up_by_status_witness :
  StoreTransaction sampleSender txFast ["0xa1"] storeACanceled =
    Returned None (<["0xa4" := with_Status STORED txFast]>
                     (<["0xa1" := with_Status SPEDUP txA]> storeACanceled))
  ∧ (CANCELED = STORED ∨ CANCELED = CANCELED →
     ∃ old' new,
       storeOf (StoreTransaction sampleSender txFast ["0xa1"] storeACanceled) !! "0xa1"
       = Some old'
       ∧ Status old' = SPEDUP ∧ Eth old' = Eth txA ∧ RawHex old' = RawHex txA
       ∧ storeOf (StoreTransaction sampleSender txFast ["0xa1"] storeACanceled) !! "0xa4"
         = Some new
       ∧ Status new = STORED ∧ Eth new = Eth txFast ∧ RawHex new = RawHex txFast).
Proof.
  apply (StoreTransaction_speed_up_by_status sampleSender txFast ["0xa1"]
           storeACanceled "0xa1" (with_Status CANCELED txA) 7 9);
    try closed_by_computation.
  - done.
  - intros h r Hne [-> ->]%storeACanceled_lookup_inv. done.
Defined.

(** X11 on the monitor that holds the mutex, over two ticks. *)
Lemma MonitorGas_held_for_ever_witness :
  mutexHeld monitorHeld = true
  ∧ stateOf (MonitorGas [sampleTick; sampleTick] monitorHeld) = monitorHeld.
Proof.
  split; [reflexivity |].
  apply (MonitorGas_held_for_ever [sampleTick; sampleTick] monitorHeld).
  reflexivity.
Defined.

Lemma storeAA_lookup_inv (h : string) (r : Transaction) :
  storeAA !! h = Some r → (h = "0xa1" ∧ r = txA) ∨ (h = "0xa2" ∧ r = txA').
Proof.
  unfold storeAA, storeA. rewrite lookup_insert.
  case_decide as Hh; [intros [= <-]; by right |].
  intros [-> ->]%lookup_singleton_Some. by left.
Qed.

(** X12 on the run in which txOther is ingested between two ticks: the
    node is called once for each of the three transactions. *)
Lemma MonitorGas_sends_once_witness :
  sent (stateOf (MonitorGas_shared sampleRun (monitorStart storeAA)))
  = ["0xc1"; "0xa2"; "0xa1"]
  ∧ NoDup (sent (stateOf (MonitorGas_shared sampleRun (monitorStart storeAA)))).
Proof.
  split; [closed_by_computation |].
  apply (MonitorGas_sends_once sampleRun storeAA).
  split; [apply settledKept_refl |]. split; [| exact I].
  apply (settledKept_StoreTransaction sampleSender txOther ["0xa1"; "0xa2"]
           (storedTransactions monitorAfterTick)).
  closed_by_computation.
Defined.

(** X13 on the node that rejects txA and accepts txA', and then a tick at
    gas price 5 with a node that would answer txA with a transport error. *)
Lemma MonitorGas_tick_settles_witness :
  ∃ st', MonitorGas_tick sampleSendRPC (fetchedPrice 1) ["0xa1"; "0xa2"] (monitorStart storeAA)
         = TickDone st'
         ∧ MonitorGas_tick sampleSend (fetchedPrice 5) ["0xa2"; "0xa1"] st' = TickDone st'.
Proof.
  apply (MonitorGas_tick_settles sampleSendRPC sampleSend
           (float64_of_int64 1) (float64_of_int64 5)
           ["0xa1"; "0xa2"] ["0xa2"; "0xa1"] (monitorStart storeAA)).
  - closed_by_computation.
  - reflexivity.
  - reflexivity.
  - intros h tx [[-> ->] | [-> ->]]%storeAA_lookup_inv _; by vm_compute.
  - vm_compute. discriminate.
Defined.

